(** * The comment pipeline of [index.js]

    A shallow embedding of the fetch-filter-paginate pipeline
    ([getComments]), of the renderer ([generateCommentHTML],
    [generateCommentImage]), of the custom-comment path
    ([generateCustomComments]) and of the entry point ([main] with
    [loadConfig] and [loadCustomComments]), followed by the properties of
    these functions.

    JavaScript strings are sequences of UTF-16 code units, numbers that the
    program compares and counts are integers, the console, the network
    client, the date library, the headless browser and the file system are
    made explicit: the first as a trace of events, the others as the fields
    of a [World] and a [Disk]. *)

From Stdlib Require Import ZArith NArith Ascii String DecimalString Lia.
From stdpp Require Import gmap list.

(** ** JavaScript built-ins used by the program *)

Module Js.

(** A string is its list of UTF-16 code units. *)
Abbreviation jsstring := (list N).

(** A string literal of the source, all of them ASCII. *)
Definition lit (s : string) : jsstring :=
  N_of_ascii <$> list_ascii_of_string s.

Definition isUpperAZ (u : N) : bool := (0x41 <=? u)%N && (u <=? 0x5A)%N.
Definition isLowerAZ (u : N) : bool := (0x61 <=? u)%N && (u <=? 0x7A)%N.
Definition isDigit (u : N) : bool := (0x30 <=? u)%N && (u <=? 0x39)%N.

(** The lower case of one code unit, after the Unicode tables, for Basic
    Latin, the Latin-1 Supplement and U+0130 (capital I with dot above,
    the one code unit whose lower case, U+0069 U+0307, is longer than
    itself). Any other code unit is kept: the tables map further letters,
    each of them to one code unit again. *)
Definition lowerUnit (u : N) : jsstring :=
  if isUpperAZ u then [(u + 32)%N]
  else if (0xC0 <=? u)%N && (u <=? 0xDE)%N && negb (u =? 0xD7)%N
       then [(u + 32)%N]
  else if (u =? 0x130)%N then [0x69%N; 0x307%N]
  else [u].

(** [String.prototype.toLowerCase]. *)
Definition toLowerCase (s : jsstring) : jsstring := flat_map lowerUnit s.

(** [s.startsWith(t)], the test [includes] makes at each position. *)
Fixpoint startsWith (s t : jsstring) {struct t} : bool :=
  match t, s with
  | [], _ => true
  | _ :: _, [] => false
  | b :: t', a :: s' => (a =? b)%N && startsWith s' t'
  end.

(** [String.prototype.includes]: [t] occurs in [s] at some position. *)
Fixpoint includes (s t : jsstring) : bool :=
  startsWith s t ||
  match s with
  | [] => false
  | _ :: s' => includes s' t
  end.

(** [s.replace(/[^a-z0-9]/gi, '_')]: the class is matched per code unit
    and, under the [i] flag, a code unit escapes replacement exactly when
    it is an ASCII letter of either case or an ASCII digit. *)
Definition replaceNonAlnum (s : jsstring) : jsstring :=
  (fun u => if isLowerAZ u || isUpperAZ u || isDigit u then u else 0x5F%N)
    <$> s.

(** An integer interpolated into a template literal. *)
Definition numberToString (z : Z) : jsstring :=
  lit (NilZero.string_of_int (Z.to_int z)).

(** [Array.prototype.join]. *)
Fixpoint join (sep : jsstring) (l : list jsstring) : jsstring :=
  match l with
  | [] => []
  | [s] => s
  | s :: l' => s ++ sep ++ join sep l'
  end.

(** [path.join(dir, file)] for two plain segments (POSIX separator;
    neither segment of the program has a dot segment or a separator to
    normalise). *)
Definition path_join (dir file : jsstring) : jsstring :=
  dir ++ lit "/" ++ file.

(** A thrown value. *)
Record Error := MkError { errorName : jsstring; message : jsstring }.

(** What an awaited call of a library gives: a value, or a rejection. *)
Inductive Reply (A : Type) : Type :=
| Ok (a : A)
| Fails (e : Error).
Arguments Ok {A} a.
Arguments Fails {A} e.

(** A [Date]: its time value in milliseconds, [None] for Invalid Date. *)
Abbreviation JSDate := (option Z).

(** [isValid] of date-fns. *)
Definition isValid (d : JSDate) : bool :=
  match d with Some _ => true | None => false end.

End Js.
Import Js.

(** ** Data *)

(** What [youtube.commentThreads.list] returns, as far as the program reads
    it: [item.snippet.topLevelComment.snippet] is [topLevelComment item],
    [item.replies.comments] is [replies item] ([None] when the thread has
    no [replies] member). *)
Module Api.
Record Snippet := {
  authorProfileImageUrl : jsstring;
  authorDisplayName : jsstring;
  publishedAt : jsstring;
  textDisplay : jsstring;
  likeCount : Z
}.
Record Item := {
  topLevelComment : Snippet;
  replies : option (list Snippet)
}.
Record ListResponse := {
  items : list Item;
  nextPageToken : option jsstring
}.
End Api.

(** The [commentData] object handed to the renderer; also one entry of the
    custom comments file. *)
Record CommentData := {
  avatar : jsstring;
  username : jsstring;
  datePosted : jsstring;
  likeCount : Z;
  content : jsstring
}.

(** The [params] object of [getComments]. [None] is a member that is
    [undefined]; for [maxChars] it also stands for [Infinity], which
    [validateParams] lets through and which is the default of an
    [undefined] member. *)
Module Params.
Record t := {
  videoIds : list jsstring;
  searchTerms : list jsstring;
  maxLimit : option Z;
  minLikes : option Z;
  minReplies : option Z;
  filteredWords : option (list jsstring);
  maxChars : option Z;
  theme : option jsstring
}.
End Params.

(** The constants bound by the destructuring at the top of [getComments],
    defaults applied. [maxChars = None] is [Infinity]. *)
Record Criteria := {
  videoIdArray : list jsstring;
  searchTermArray : list jsstring;
  maxLimit : Z;
  minLikes : Z;
  minReplies : Z;
  filteredWords : list jsstring;
  maxChars : option Z;
  theme : jsstring
}.

(** The markup built by [generateCommentHTML] and the page set by
    [generateCommentImage], each as the values interpolated into its
    template (the fixed text of the templates is left out). *)
Record CommentHTML := {
  html_avatar : jsstring;
  html_username : jsstring;
  html_relativeDate : jsstring;
  html_content : jsstring;
  html_likeCount : Z;
  html_isDarkTheme : bool
}.

Record Document := {
  doc_commentHTML : CommentHTML;
  doc_isDarkTheme : bool
}.

Abbreviation BoundingBox := (Z * Z * Z * Z)%type.
Abbreviation Image := (list N).

(** ** The world outside the program *)

(** The libraries the program calls. Each is a function of its arguments:
    the same request is answered the same way throughout a run. *)
Record World := {
  (** [youtube.commentThreads.list] for a video and a page token *)
  commentThreads_list : jsstring -> jsstring -> Reply Api.ListResponse;
  (** [parseISO] of a string *)
  parseISO : jsstring -> Reply JSDate;
  (** [parseISO] of a [Date] object, as the [catch] branch calls it *)
  parseISO_of_Date : JSDate -> Reply JSDate;
  (** [new Date(string)] *)
  newDate : jsstring -> JSDate;
  (** [formatDistanceToNow(d, { addSuffix: true })] of a valid date *)
  formatDistance : Z -> jsstring;
  (** [puppeteer.launch] up to [commentContainer.boundingBox()] *)
  engine_boundingBox : Document -> Reply BoundingBox;
  (** the raster [page.screenshot] produces for a clip *)
  engine_screenshot : Document -> BoundingBox -> Reply Image;
  (** [browser.close()] *)
  engine_close : Document -> option Error
}.

(** The file system: whether the directory [comment-images] exists, and
    the files by path. The file system itself does not fail. *)
Record Disk := {
  dirExists : bool;
  files : gmap jsstring Image
}.

(** Lines written with [console.log]. *)
Inductive Message :=
| Fetching (videoId : jsstring)
| Rejected (username : jsstring) (reason : list jsstring)
| Saved (username textDisplay : jsstring)
| DatePosted (datePosted : jsstring)
| ErrorParsingDate (error : Error)
| SavedCustom (username : jsstring).

Definition reasonSeparator : jsstring := lit ", ".

(** The text of a line; for [ErrorParsingDate] the text before the error
    object. *)
Definition messageText (m : Message) : jsstring :=
  match m with
  | Fetching videoId => lit "Fetching comments for video ID: " ++ videoId
  | Rejected username reason =>
      lit "Comment by " ++ username ++ lit " rejected: "
          ++ join reasonSeparator reason
  | Saved username textDisplay =>
      lit "Saved image for comment by " ++ username ++ lit ": " ++ textDisplay
  | DatePosted datePosted => datePosted
  | ErrorParsingDate _ => lit "Error parsing date: "
  | SavedCustom username => lit "Saved image for custom comment by " ++ username
  end.

(** What a run does, in order. [Scan] and [Render] are markers: the first
    is put where the body of the record loop is entered past the quota
    guard, the second where [generateCommentImage] is entered. *)
Inductive Event :=
| Console (m : Message)
| ConsoleError (err : Error)
| Request (videoId pageToken : jsstring)
| Scan (item : Api.Item)
| Render (commentData : CommentData) (theme : jsstring)
| Mkdir
| Screenshot (filePath : jsstring) (image : Image).

Record State := {
  totalCommentsFetched : Z;
  trace : list Event;
  disk : Disk
}.

(** ** A monad for state, exceptions and unfinished runs *)

Inductive Outcome (A : Type) : Type :=
| Returned (a : A) (st : State)
| Threw (e : Error) (st : State)
| Diverged (st : State).
Arguments Returned {A} a st.
Arguments Threw {A} e st.
Arguments Diverged {A} st.

Definition M (A : Type) : Type := State -> Outcome A.

Definition ret {A} (a : A) : M A := fun st => Returned a st.

Definition bind {A B} (m : M A) (k : A -> M B) : M B :=
  fun st =>
    match m st with
    | Returned a st' => k a st'
    | Threw e st' => Threw e st'
    | Diverged st' => Diverged st'
    end.

Notation "x <- m ;; k" := (bind m (fun x => k))
  (at level 100, m at next level, right associativity).
Notation "m ;; k" := (bind m (fun _ => k))
  (at level 100, right associativity).

Definition throw {A} (e : Error) : M A := fun st => Threw e st.

Definition diverge {A} : M A := fun st => Diverged st.

(** [try { m } catch (e) { h e }]. *)
Definition tryCatch {A} (m : M A) (h : Error -> M A) : M A :=
  fun st =>
    match m st with
    | Threw e st' => h e st'
    | r => r
    end.

(** [await] of a library call. *)
Definition await {A} (r : Reply A) : M A :=
  match r with
  | Ok a => ret a
  | Fails e => throw e
  end.

(** The state once [ev] has happened. *)
Definition push (st : State) (ev : Event) : State :=
  {| totalCommentsFetched := totalCommentsFetched st;
     trace := trace st ++ [ev];
     disk := disk st |}.

Definition emit (ev : Event) : M unit := fun st => Returned tt (push st ev).

Definition getTotal : M Z := fun st => Returned (totalCommentsFetched st) st.

(** [totalCommentsFetched++]. *)
Definition bump (st : State) : State :=
  {| totalCommentsFetched := (totalCommentsFetched st + 1)%Z;
     trace := trace st;
     disk := disk st |}.

Definition incrementTotal : M unit := fun st => Returned tt (bump st).

Definition getDisk : M Disk := fun st => Returned (disk st) st.

Definition withDisk (st : State) (d : Disk) : State :=
  {| totalCommentsFetched := totalCommentsFetched st;
     trace := trace st;
     disk := d |}.

Definition setDisk (d : Disk) : M unit := fun st => Returned tt (withDisk st d).

Definition stateOf {A} (o : Outcome A) : State :=
  match o with
  | Returned _ st => st
  | Threw _ st => st
  | Diverged st => st
  end.

(** ** The program *)

(** [member && member < bound] for a number: a member that is [undefined]
    or [0] is falsy and skips the check. *)
Definition belowBound (member : option Z) (bound : Z) : bool :=
  match member with
  | Some n => negb (n =? 0)%Z && (n <? bound)%Z
  | None => false
  end.

(** The check of [theme], which an empty string skips as well. *)
Definition badTheme (member : option jsstring) : bool :=
  match member with
  | Some t =>
      negb (bool_decide (t = [])) &&
      (negb (bool_decide (t = lit "dark")) &&
       negb (bool_decide (t = lit "light")))
  | None => false
  end.

Definition newError (msg : jsstring) : Error :=
  {| errorName := lit "Error"; message := msg |}.

Definition quoted (s : string) : jsstring := [0x22%N] ++ lit s ++ [0x22%N].

(** [validateParams]: the error it throws, if any. [videoIds],
    [searchTerms] and [filteredWords] are arrays of strings by their type,
    so their checks pass. *)
Definition validateParams (params : Params.t) : option Error :=
  if belowBound (Params.maxLimit params) 1 then
    Some (newError (lit "Invalid maxLimit. It should be a positive integer."))
  else if belowBound (Params.minLikes params) 0 then
    Some (newError
            (lit "Invalid minLikes. It should be a non-negative integer."))
  else if belowBound (Params.minReplies params) 0 then
    Some (newError
            (lit "Invalid minReplies. It should be a non-negative integer."))
  else if belowBound (Params.maxChars params) 1 then
    Some (newError (lit "Invalid maxChars. It should be a positive integer."))
  else if badTheme (Params.theme params) then
    Some (newError (lit "Invalid theme. It should be either " ++ quoted "dark"
                         ++ lit " or " ++ quoted "light" ++ lit "."))
  else None.

(** The destructuring of [params] with its defaults. *)
Definition destructure (params : Params.t) : Criteria :=
  {| videoIdArray := Params.videoIds params;
     searchTermArray := Params.searchTerms params;
     maxLimit := default 10%Z (Params.maxLimit params);
     minLikes := default 0%Z (Params.minLikes params);
     minReplies := default 0%Z (Params.minReplies params);
     filteredWords := default [] (Params.filteredWords params);
     maxChars := Params.maxChars params;
     theme := default (lit "dark") (Params.theme params) |}.

(** The [forEach] over the search terms that sets [matched]. *)
Definition matched (searchTermArray : list jsstring) (commentText : jsstring)
  : bool :=
  fold_left
    (fun matched term =>
       if includes commentText (toLowerCase term) then true else matched)
    searchTermArray false.

(** The four strings pushed onto [reason]. *)
Definition likesReason (minLikes likeCount : Z) : jsstring :=
  lit "didn't have enough likes (needed " ++ numberToString minLikes
      ++ lit ", had " ++ numberToString likeCount ++ lit ")".

Definition repliesReason (minReplies replyCount : Z) : jsstring :=
  lit "didn't have enough replies (needed " ++ numberToString minReplies
      ++ lit ", had " ++ numberToString replyCount ++ lit ")".

Definition filteredReason : jsstring := lit "contained a filtered word".

Definition charsReason (maxChars : Z) (len : nat) : jsstring :=
  lit "exceeded max characters (allowed " ++ numberToString maxChars
      ++ lit ", had " ++ numberToString (Z.of_nat len) ++ lit ")".

(** [commentText.length > maxChars]. *)
Definition exceeds (len : nat) (maxChars : option Z) : bool :=
  match maxChars with
  | Some m => (m <? Z.of_nat len)%Z
  | None => false
  end.

(** The array [reason] after the four checks of a matched record. *)
Definition reason (c : Criteria) (commentText : jsstring)
           (likeCount replyCount : Z) : list jsstring :=
  let reason := [] in
  let reason :=
    if (likeCount <? minLikes c)%Z
    then reason ++ [likesReason (minLikes c) likeCount] else reason in
  let reason :=
    if (replyCount <? minReplies c)%Z
    then reason ++ [repliesReason (minReplies c) replyCount] else reason in
  let reason :=
    if existsb (fun word => includes commentText (toLowerCase word))
               (filteredWords c)
    then reason ++ [filteredReason] else reason in
  let reason :=
    if exceeds (length commentText) (maxChars c)
    then reason ++ [charsReason (default 0%Z (maxChars c))
                                (length commentText)]
    else reason in
  reason.

(** [item.replies ? item.replies.comments.length : 0]. *)
Definition replyCount (item : Api.Item) : Z :=
  match Api.replies item with
  | Some comments => Z.of_nat (length comments)
  | None => 0%Z
  end.

(** The object [commentData] built for an accepted record. *)
Definition commentDataOf (commentSnippet : Api.Snippet) : CommentData :=
  {| avatar := Api.authorProfileImageUrl commentSnippet;
     username := Api.authorDisplayName commentSnippet;
     datePosted := Api.publishedAt commentSnippet;
     likeCount := Api.likeCount commentSnippet;
     content := Api.textDisplay commentSnippet |}.

(** The file [generateCommentImage] writes for a user name. *)
Definition filePath (username : jsstring) : jsstring :=
  path_join (lit "comment-images")
            (toLowerCase (replaceNonAlnum username) ++ lit ".png").

Definition isDarkTheme (theme : jsstring) : bool :=
  bool_decide (theme = lit "dark").

Definition invalidTime : Error :=
  {| errorName := lit "RangeError"; message := lit "Invalid time value" |}.

Section Program.

Variable W : World.

(** [formatDistanceToNow]: date-fns throws a [RangeError] on an Invalid
    Date. *)
Definition formatDistanceToNow (d : JSDate) : M jsstring :=
  match d with
  | Some t => ret (formatDistance W t)
  | None => throw invalidTime
  end.

Definition generateCommentHTML (commentData : CommentData) (theme : jsstring)
  : M CommentHTML :=
  parsedDate <-
    tryCatch
      (emit (Console (DatePosted (datePosted commentData))) ;;
       iso <- await (parseISO W (datePosted commentData)) ;;
       ret (if isValid iso then iso
            else newDate W (datePosted commentData)))
      (fun error =>
         emit (Console (ErrorParsingDate error)) ;;
         await (parseISO_of_Date W (newDate W (datePosted commentData)))) ;;
  relativeDate <- formatDistanceToNow parsedDate ;;
  ret {| html_avatar := avatar commentData;
         html_username := username commentData;
         html_relativeDate := relativeDate;
         html_content := content commentData;
         html_likeCount := likeCount commentData;
         html_isDarkTheme := isDarkTheme theme |}.

(** [if (!fs.existsSync('comment-images')) fs.mkdirSync('comment-images')]. *)
Definition ensureDirectory : M unit :=
  d <- getDisk ;;
  if dirExists d then ret tt
  else emit Mkdir ;; setDisk {| dirExists := true; files := files d |}.

(** The file [page.screenshot] leaves at [path]; an older file of that
    name is replaced. *)
Definition writeScreenshot (path : jsstring) (image : Image) : M unit :=
  d <- getDisk ;;
  emit (Screenshot path image) ;;
  setDisk {| dirExists := dirExists d; files := <[path := image]> (files d) |}.

Definition generateCommentImage (commentData : CommentData) (theme : jsstring)
  : M unit :=
  emit (Render commentData theme) ;;
  commentHTML <- generateCommentHTML commentData theme ;;
  let page := {| doc_commentHTML := commentHTML;
                 doc_isDarkTheme := isDarkTheme theme |} in
  boundingBox <- await (engine_boundingBox W page) ;;
  ensureDirectory ;;
  image <- await (engine_screenshot W page boundingBox) ;;
  writeScreenshot (filePath (username commentData)) image ;;
  match engine_close W page with
  | Some e => throw e
  | None => ret tt
  end.

(** The body of [for (const item of response.data.items)] after the quota
    guard. *)
Definition processItem (c : Criteria) (item : Api.Item) : M unit :=
  emit (Scan item) ;;
  let commentSnippet := Api.topLevelComment item in
  let commentText := toLowerCase (Api.textDisplay commentSnippet) in
  let likeCount := Api.likeCount commentSnippet in
  let replyCount := replyCount item in
  let username := Api.authorDisplayName commentSnippet in
  if matched (searchTermArray c) commentText then
    let reason := reason c commentText likeCount replyCount in
    if (0 <? length reason)%nat then
      emit (Console (Rejected username reason))
    else
      generateCommentImage (commentDataOf commentSnippet) (theme c) ;;
      emit (Console (Saved username (Api.textDisplay commentSnippet))) ;;
      incrementTotal
  else ret tt.

(** [for (const item of response.data.items)], with its [break]. *)
Fixpoint scanItems (c : Criteria) (items : list Api.Item) : M unit :=
  match items with
  | [] => ret tt
  | item :: rest =>
      total <- getTotal ;;
      if (maxLimit c <=? total)%Z then ret tt
      else processItem c item ;; scanItems c rest
  end.

(** A page token that is a non-empty string. *)
Definition truthy (token : option jsstring) : bool :=
  match token with
  | Some (_ :: _) => true
  | _ => false
  end.

(** The [do ... while] over the pages of one video. [fuel] bounds the
    number of pages requested; a loop that wants more is [Diverged]. *)
Fixpoint pageLoop (fuel : nat) (c : Criteria) (videoId nextPageToken : jsstring)
  : M unit :=
  match fuel with
  | O => diverge
  | S fuel' =>
      emit (Request videoId nextPageToken) ;;
      response <- await (commentThreads_list W videoId nextPageToken) ;;
      scanItems c (Api.items response) ;;
      total <- getTotal ;;
      if truthy (Api.nextPageToken response) && (total <? maxLimit c)%Z
      then pageLoop fuel' c videoId (default [] (Api.nextPageToken response))
      else ret tt
  end.

(** [for (const videoId of videoIdArray)], with its [break]. *)
Fixpoint videoLoop (fuel : nat) (c : Criteria) (videoIdArray : list jsstring)
  : M unit :=
  match videoIdArray with
  | [] => ret tt
  | videoId :: rest =>
      emit (Console (Fetching videoId)) ;;
      pageLoop fuel c videoId [] ;;
      total <- getTotal ;;
      if (maxLimit c <=? total)%Z then ret tt
      else videoLoop fuel c rest
  end.

(** How the promise of an [async] function ends. [Pending] is a run that
    has not ended within the pages [fuel] allows. *)
Inductive Promise :=
| Fulfilled (st : State)
| Failed (e : Error) (st : State)
| Pending (st : State).

Definition settle (o : Outcome unit) : Promise :=
  match o with
  | Returned _ st => Fulfilled st
  | Threw e st => Failed e st
  | Diverged st => Pending st
  end.

Definition finalState (p : Promise) : State :=
  match p with
  | Fulfilled st => st
  | Failed _ st => st
  | Pending st => st
  end.

(** The state a run starts in: [let totalCommentsFetched = 0], nothing done
    yet, the disk as it is found. *)
Definition start (d : Disk) : State :=
  {| totalCommentsFetched := 0%Z; trace := []; disk := d |}.

Definition getComments (fuel : nat) (params : Params.t) (d : Disk) : Promise :=
  match validateParams params with
  | Some e => Failed e (start d)
  | None =>
      let c := destructure params in
      settle
        (tryCatch (videoLoop fuel c (videoIdArray c))
                  (fun err => emit (ConsoleError err))
                  (start d))
  end.

(** [for (const comment of comments)] of [generateCustomComments]. *)
Fixpoint customLoop (theme : jsstring) (comments : list CommentData) : M unit :=
  match comments with
  | [] => ret tt
  | comment :: rest =>
      generateCommentImage comment theme ;;
      emit (Console (SavedCustom (username comment))) ;;
      customLoop theme rest
  end.

Definition generateCustomComments (comments : list CommentData)
           (theme : jsstring) (d : Disk) : Promise :=
  settle (customLoop theme comments (start d)).

End Program.

(** ** Observations on runs *)

(** Number of events of a kind in a trace. *)
Fixpoint count (p : Event -> bool) (tr : list Event) : nat :=
  match tr with
  | [] => 0
  | ev :: tr' => (if p ev then 1 else 0) + count p tr'
  end.

Definition isSaved (ev : Event) : bool :=
  match ev with Console (Saved _ _) => true | _ => false end.

Definition isRender (ev : Event) : bool :=
  match ev with Render _ _ => true | _ => false end.

Definition isScreenshot (ev : Event) : bool :=
  match ev with Screenshot _ _ => true | _ => false end.

Definition isConsoleError (ev : Event) : bool :=
  match ev with ConsoleError _ => true | _ => false end.

(** The events [generateCommentImage] produces after it is entered. *)
Definition isInternal (ev : Event) : bool :=
  match ev with
  | Console (DatePosted _) | Console (ErrorParsingDate _)
  | Mkdir | Screenshot _ _ => true
  | _ => false
  end.

(** The events of filtering: a call of the renderer, a rejection line, a
    saved line. *)
Definition isVerdict (ev : Event) : bool :=
  match ev with
  | Render _ _ | Console (Rejected _ _) | Console (Saved _ _) => true
  | _ => false
  end.


(** What becomes of one code unit of a user name in the file name. *)
Definition fileNameUnit (u : N) : N :=
  if isLowerAZ u || isDigit u then u
  else if isUpperAZ u then (u + 32)%N
  else 0x5F%N.

Definition isScan (ev : Event) : bool :=
  match ev with Scan _ => true | _ => false end.

Definition isRequest (ev : Event) : bool :=
  match ev with Request _ _ => true | _ => false end.

Definition emptyDisk : Disk := {| dirExists := false; files := ∅ |}.

(** The error with which rendering a comment ends, if it ends with one. *)
Definition renderError (W : World) (commentData : CommentData)
           (theme : jsstring) : option Error :=
  match generateCommentImage W commentData theme (start emptyDisk) with
  | Threw e _ => Some e
  | _ => None
  end.

(** The error a call recorded in the trace ends with, if any: a page
    request the source rejects, a rendering that throws. *)
Definition raises (W : World) (ev : Event) : option Error :=
  match ev with
  | Request videoId pageToken =>
      match commentThreads_list W videoId pageToken with
      | Fails e => Some e
      | Ok _ => None
      end
  | Render commentData theme => renderError W commentData theme
  | _ => None
  end.

(** [t] is a substring of [s]. *)
Definition substring (t s : jsstring) : Prop :=
  exists pre post, s = pre ++ t ++ post.

(** The result of the filter on a record, as the loop body uses it. *)
Definition commentTextOf (item : Api.Item) : jsstring :=
  toLowerCase (Api.textDisplay (Api.topLevelComment item)).

Definition isMatched (c : Criteria) (item : Api.Item) : bool :=
  matched (searchTermArray c) (commentTextOf item).

Definition reasonOf (c : Criteria) (item : Api.Item) : list jsstring :=
  reason c (commentTextOf item) (Api.likeCount (Api.topLevelComment item))
         (replyCount item).

Definition accepted (c : Criteria) (item : Api.Item) : bool :=
  isMatched c item && negb (0 <? length (reasonOf c item))%nat.

(** ** A sample world

    One video, [v1], of two pages; a video, [down], whose requests fail;
    a browser that fails to start for the user [crash]; dates known by a
    table. *)

Definition sampleDate : jsstring := lit "2023-07-01T14:48:00.000Z".

Definition knownDates : list (jsstring * Z) :=
  [(sampleDate, 1688222880000%Z)].

Fixpoint lookupDate (table : list (jsstring * Z)) (s : jsstring) : JSDate :=
  match table with
  | [] => None
  | (k, t) :: table' => if bool_decide (k = s) then Some t
                        else lookupDate table' s
  end.

Definition thread (author text : string) (likes : Z) (nreplies : nat)
  : Api.Item :=
  {| Api.topLevelComment :=
       {| Api.authorProfileImageUrl := lit "https://i.imgur.com/umjyrKZ.png";
          Api.authorDisplayName := lit author;
          Api.publishedAt := sampleDate;
          Api.textDisplay := lit text;
          Api.likeCount := likes |};
     Api.replies :=
       match nreplies with
       | O => None
       | _ => Some (replicate nreplies
                      {| Api.authorProfileImageUrl := [];
                         Api.authorDisplayName := lit "someone";
                         Api.publishedAt := sampleDate;
                         Api.textDisplay := lit "ok";
                         Api.likeCount := 0%Z |})
       end |}.

Definition page1 : Api.ListResponse :=
  {| Api.items := [thread "Ann" "What a dog" 3 0;
                   thread "Bob" "My CAT agrees" 5 1;
                   thread "Cy" "cat cat cat" 0 0];
     Api.nextPageToken := Some (lit "p2") |}.

Definition page2 : Api.ListResponse :=
  {| Api.items := [thread "Dee" "Another cat" 7 0];
     Api.nextPageToken := None |}.

Definition emptyPage : Api.ListResponse :=
  {| Api.items := []; Api.nextPageToken := None |}.

Definition sourceDown : Error :=
  {| errorName := lit "Error"; message := lit "quotaExceeded" |}.

Definition launchFailed : Error :=
  {| errorName := lit "Error"; message := lit "Failed to launch the browser process" |}.

Definition sampleWorld : World :=
  {| commentThreads_list := fun videoId pageToken =>
       if bool_decide (videoId = lit "down") then Fails sourceDown
       else if bool_decide (videoId = lit "v1") then
         if bool_decide (pageToken = []) then Ok page1
         else if bool_decide (pageToken = lit "p2") then Ok page2
         else Ok emptyPage
       else Ok emptyPage;
     parseISO := fun s => Ok (lookupDate knownDates s);
     parseISO_of_Date := fun _ => Ok None;
     newDate := lookupDate knownDates;
     formatDistance := fun _ => lit "over 1 year ago";
     engine_boundingBox := fun page =>
       if bool_decide (html_username (doc_commentHTML page) = lit "crash")
       then Fails launchFailed
       else Ok (8, 8, 500, 78)%Z;
     engine_screenshot := fun page _ =>
       Ok (html_username (doc_commentHTML page)
             ++ html_content (doc_commentHTML page));
     engine_close := fun _ => None |}.

Definition sampleParams (terms : list jsstring) (quota : Z) : Params.t :=
  {| Params.videoIds := [lit "v1"];
     Params.searchTerms := terms;
     Params.maxLimit := Some quota;
     Params.minLikes := None;
     Params.minReplies := None;
     Params.filteredWords := None;
     Params.maxChars := None;
     Params.theme := None |}.

Definition customComment (user date text : string) : CommentData :=
  {| avatar := lit "https://i.imgur.com/umjyrKZ.png";
     username := lit user;
     datePosted := lit date;
     likeCount := 5%Z;
     content := lit text |}.

(** ** Invariants of a run *)

(** What rendering does to the disk: no file disappears, and every
    screenshot among the events [sub] is a file afterwards. *)
Definition grows (sub : list Event) (d d' : Disk) : Prop :=
  dom (files d) ⊆ dom (files d') /\
  forall p img, Screenshot p img ∈ sub -> p ∈ dom (files d').

(** The quota is not reached yet. *)
Definition open (c : Criteria) (st : State) : Prop :=
  (totalCommentsFetched st < maxLimit c)%Z.

(** What holds wherever the loops request a page or move to a video: the
    quota is not reached, or it is zero and the run has just started. *)
Definition admissible (c : Criteria) (st : State) : Prop :=
  open c st \/ (maxLimit c <= 0)%Z.

(** A postcondition in three parts: [I] where the code returns or is still
    running, [T] where it throws. *)
Definition post (c : Criteria) (I : State -> Prop) (T : Error -> State -> Prop)
           (o : Outcome unit) : Prop :=
  match o with
  | Returned _ st => I st
  | Threw e st => T e st
  | Diverged st => I st /\ admissible c st
  end.

(** The same for code without a loop over pages, which always ends. *)
Definition post_item (I : State -> Prop) (T : Error -> State -> Prop)
           (o : Outcome unit) : Prop :=
  match o with
  | Returned _ st => I st
  | Threw e st => T e st
  | Diverged _ => False
  end.




(** An event that is neither a failed call nor the report of one. *)
Definition calm (W : World) (ev : Event) : Prop :=
  raises W ev = None /\ isConsoleError ev = false.

Definition calmInv (W : World) (st : State) : Prop :=
  Forall (calm W) (trace st).

(** The trace of a run that threw [e]: calm up to the call that raised
    [e], then nothing but what the renderer did before it gave up. *)
Definition calmThrew (W : World) (e : Error) (st : State) : Prop :=
  exists l1 ev sub,
    trace st = l1 ++ ev :: sub /\ Forall (calm W) l1 /\
    raises W ev = Some e /\ forallb isInternal sub = true.

(** Files stay, and every screenshot of the trace is a file. *)
Definition diskInv (d0 : Disk) (st : State) : Prop :=
  dom (files d0) ⊆ dom (files (disk st)) /\
  forall p img, Screenshot p img ∈ trace st -> p ∈ dom (files (disk st)).


(** The calls of the renderer in a trace, in order. *)
Definition renderCalls (tr : list Event) : list (CommentData * jsstring) :=
  omap (fun ev => match ev with
                  | Render commentData theme => Some (commentData, theme)
                  | _ => None
                  end) tr.

(** ** Further samples *)

(** Parameters with thresholds: at least two likes, at most ten
    characters. *)
Definition strictParams : Params.t :=
  {| Params.videoIds := [lit "v1"];
     Params.searchTerms := [lit "cat"; lit "I"];
     Params.maxLimit := Some 10%Z;
     Params.minLikes := Some 2%Z;
     Params.minReplies := None;
     Params.filteredWords := Some [lit "spam"];
     Params.maxChars := Some 10%Z;
     Params.theme := Some (lit "light") |}.

(** A comment of six capital letters I with dot above (U+0130). *)
Definition dottedComment : Api.Item :=
  {| Api.topLevelComment :=
       {| Api.authorProfileImageUrl := lit "https://i.imgur.com/umjyrKZ.png";
          Api.authorDisplayName := lit "Ilkay";
          Api.publishedAt := sampleDate;
          Api.textDisplay := replicate 6 0x130%N;
          Api.likeCount := 4%Z |};
     Api.replies := None |}.

(** Custom comments: two whose user names give one file name, one whose
    date no parser understands, and two of the example file of the
    README. *)
Definition firstComment : CommentData :=
  customComment "O'Brien!" "2023-07-01T14:48:00.000Z" "first".

Definition secondComment : CommentData :=
  customComment "o brien?" "2023-07-01T14:48:00.000Z" "second".

Definition undatedComment : CommentData :=
  customComment "Zed" "not a date" "hello".

Definition readmeComments : list CommentData :=
  [customComment "GigaDemon" "2023-07-01T14:48:00.000Z"
                 "I CANT STOP EATING FLESH.";
   customComment "TechGoblin" "2023-07-01T14:48:00.000Z"
                 "Have you tried eating it?"].

(** The markup of a comment once its date label is known. *)
Definition htmlOf (commentData : CommentData) (theme relativeDate : jsstring)
  : CommentHTML :=
  {| html_avatar := avatar commentData;
     html_username := username commentData;
     html_relativeDate := relativeDate;
     html_content := content commentData;
     html_likeCount := likeCount commentData;
     html_isDarkTheme := isDarkTheme theme |}.

(** Parameters naming the video [v1] and then the video [down]. *)
Definition outageParams : Params.t :=
  {| Params.videoIds := [lit "v1"; lit "down"];
     Params.searchTerms := [lit "cat"];
     Params.maxLimit := Some 10%Z;
     Params.minLikes := None;
     Params.minReplies := None;
     Params.filteredWords := None;
     Params.maxChars := None;
     Params.theme := None |}.

(** ** Proof tools *)

Arguments filePath : simpl never.
Arguments isDarkTheme : simpl never.

Ltac unfold_M :=
  unfold bind, ret, throw, diverge, tryCatch, await, emit, getTotal,
    incrementTotal, getDisk, setDisk in *.

Ltac run_render :=
  unfold renderError, generateCommentImage, generateCommentHTML,
    formatDistanceToNow, ensureDirectory, writeScreenshot;
  unfold_M; simpl.

Ltac render_leaf :=
  eexists _, _; split;
  [ unfold push, withDisk; simpl; rewrite <- ?app_assoc; simpl; reflexivity
  | split; [reflexivity | split; [split; simpl; set_solver |]];
    first [ discriminate
          | intros _; eexists; split;
            [reflexivity | split; [reflexivity | set_solver]] ] ].

(** ** The command line and [main] *)

(** [s.split(sep)] for a separator of one code unit: the parts between
    the separators, empty parts kept; the empty string has one part. *)
Fixpoint split_string (sep : N) (s : jsstring) : list jsstring :=
  match s with
  | [] => [[]]
  | u :: s' =>
      if (u =? sep)%N then [] :: split_string sep s'
      else match split_string sep s' with
           | part :: parts => (u :: part) :: parts
           | [] => [[u]]
           end
  end.

Definition comma : N := 0x2C%N.

(** The options [yargs] hands over as [argv]. [None] is an option not
    given; for a number it also stands for [NaN]. *)
Module Argv.
Record t := {
  config : option jsstring;
  videoIds : option jsstring;
  searchTerms : option jsstring;
  maxLimit : option Z;
  minLikes : option Z;
  minReplies : option Z;
  filteredWords : option jsstring;
  maxChars : option Z;
  theme : option jsstring;
  custom : option jsstring
}.
End Argv.

(** [option ? option.split(',') : []]. *)
Definition splitOption (given : option jsstring) : list jsstring :=
  if truthy given then split_string comma (default [] given) else [].

(** [option || fallback] for a number: [0] is falsy. *)
Definition orNumber (given : option Z) (fallback : Z) : Z :=
  match given with
  | Some n => if (n =? 0)%Z then fallback else n
  | None => fallback
  end.

(** [argv.maxChars || Infinity]. *)
Definition orInfinity (given : option Z) : option Z :=
  match given with
  | Some n => if (n =? 0)%Z then None else Some n
  | None => None
  end.

(** [argv.theme || 'dark']. *)
Definition orDark (given : option jsstring) : jsstring :=
  if truthy given then default [] given else lit "dark".

(** The object [main] builds from the command line when no config file is
    named. *)
Definition cliParams (argv : Argv.t) : Params.t :=
  {| Params.videoIds := splitOption (Argv.videoIds argv);
     Params.searchTerms := splitOption (Argv.searchTerms argv);
     Params.maxLimit := Some (orNumber (Argv.maxLimit argv) 10);
     Params.minLikes := Some (orNumber (Argv.minLikes argv) 0);
     Params.minReplies := Some (orNumber (Argv.minReplies argv) 0);
     Params.filteredWords := Some (splitOption (Argv.filteredWords argv));
     Params.maxChars := orInfinity (Argv.maxChars argv);
     Params.theme := Some (orDark (Argv.theme argv)) |}.

(** [JSON.parse] of the two files the program reads, for files whose
    members have the types of [Params.t] and [CommentData], and the text
    [JSON.stringify] gives for the template config. The console lines of
    the loaders and of [main] are left out. *)
Record Json := {
  parseParams : Image -> Reply Params.t;
  parseComments : Image -> Reply (list CommentData);
  templateText : Image
}.

(** The object [loadConfig] writes for a config file that is absent. *)
Definition templateParams : Params.t :=
  {| Params.videoIds := [];
     Params.searchTerms := [];
     Params.maxLimit := Some 10%Z;
     Params.minLikes := Some 0%Z;
     Params.minReplies := Some 0%Z;
     Params.filteredWords := Some [];
     Params.maxChars := Some 200%Z;
     Params.theme := Some (lit "dark") |}.

(** Why the process ends with [process.exit(1)]: no config file (a
    template has been written), no custom comments file, or a required
    list missing. *)
Inductive ExitReason :=
| NoConfigFile
| NoCustomFile
| MissingRequired.

(** How a call of a loader, or the process, ends. *)
Inductive Ending (A : Type) : Type :=
| Went (a : A)
| Exit1 (why : ExitReason) (d : Disk)
| Uncaught (e : Error).
Arguments Went {A} a.
Arguments Exit1 {A} why d.
Arguments Uncaught {A} e.

Definition loadConfig (J : Json) (configPath : jsstring) (d : Disk)
  : Ending Params.t :=
  match files d !! configPath with
  | Some text =>
      match parseParams J text with
      | Ok params => Went params
      | Fails e => Uncaught e
      end
  | None =>
      Exit1 NoConfigFile
            {| dirExists := dirExists d;
               files := <[configPath := templateText J]> (files d) |}
  end.

Definition loadCustomComments (J : Json) (customPath : jsstring) (d : Disk)
  : Ending (list CommentData) :=
  match files d !! customPath with
  | Some text =>
      match parseComments J text with
      | Ok comments => Went comments
      | Fails e => Uncaught e
      end
  | None => Exit1 NoCustomFile d
  end.

(** [!params.videoIds.length || !params.searchTerms.length]. *)
Definition missingRequired (params : Params.t) : bool :=
  bool_decide (Params.videoIds params = []) ||
  bool_decide (Params.searchTerms params = []).

Definition main (W : World) (J : Json) (fuel : nat) (argv : Argv.t) (d : Disk)
  : Ending Promise :=
  if truthy (Argv.custom argv) then
    match loadCustomComments J (default [] (Argv.custom argv)) d with
    | Went customComments =>
        Went (generateCustomComments W customComments
                                     (orDark (Argv.theme argv)) d)
    | Exit1 why d' => Exit1 why d'
    | Uncaught e => Uncaught e
    end
  else
    match (if truthy (Argv.config argv)
           then loadConfig J (default [] (Argv.config argv)) d
           else Went (cliParams argv)) with
    | Went params =>
        if missingRequired params then Exit1 MissingRequired d
        else Went (getComments W fuel params d)
    | Exit1 why d' => Exit1 why d'
    | Uncaught e => Uncaught e
    end.

(** ** Further observations on runs *)

(** The page requests of a trace, in order. *)
Definition requestsOf (tr : list Event) : list (jsstring * jsstring) :=
  omap (fun ev => match ev with
                  | Request videoId pageToken => Some (videoId, pageToken)
                  | _ => None
                  end) tr.

(** The videos announced in a trace, in order. *)
Definition fetchedOf (tr : list Event) : list jsstring :=
  omap (fun ev => match ev with
                  | Console (Fetching videoId) => Some videoId
                  | _ => None
                  end) tr.

(** The records scanned in a trace, in order. *)
Definition scannedOf (tr : list Event) : list Api.Item :=
  omap (fun ev => match ev with Scan item => Some item | _ => None end) tr.

Definition isMkdir (ev : Event) : bool :=
  match ev with Mkdir => true | _ => false end.

(** Requests for one video that follow the page tokens: the first asks
    for [pageToken], each further one for the non-empty token with which
    the response before it ended. *)
Fixpoint chained (W : World) (videoId pageToken : jsstring)
         (requests : list (jsstring * jsstring)) : Prop :=
  match requests with
  | [] => True
  | request :: rest =>
      request = (videoId, pageToken) /\
      (rest = [] \/
       match commentThreads_list W videoId pageToken with
       | Ok response =>
           truthy (Api.nextPageToken response) = true /\
           chained W videoId (default [] (Api.nextPageToken response)) rest
       | Fails _ => False
       end)
  end.


(** Samples for the command line. *)
Definition sampleArgv : Argv.t :=
  {| Argv.config := None;
     Argv.videoIds := Some (lit "v1,down");
     Argv.searchTerms := Some (lit "cat,");
     Argv.maxLimit := Some 0%Z;
     Argv.minLikes := None;
     Argv.minReplies := None;
     Argv.filteredWords := None;
     Argv.maxChars := None;
     Argv.theme := None;
     Argv.custom := None |}.

Definition sampleJson : Json :=
  {| parseParams := fun text =>
       if bool_decide (text = lit "{}") then Ok templateParams
       else Ok strictParams;
     parseComments := fun _ => Ok readmeComments;
     templateText := lit "{}" |}.

(** The events of the body of the record loop after its marker: neither a
    request, nor the line of a new video, nor a scan, nor an error
    report. *)
Definition isLocal (ev : Event) : bool :=
  match ev with
  | Request _ _ | Console (Fetching _) | Scan _ | ConsoleError _ => false
  | _ => true
  end.

(** What an event does to the disk. *)
Definition replayEvent (d : Disk) (ev : Event) : Disk :=
  match ev with
  | Mkdir => {| dirExists := true; files := files d |}
  | Screenshot filePath image =>
      {| dirExists := dirExists d; files := <[filePath := image]> (files d) |}
  | _ => d
  end.

Definition replay (d : Disk) (tr : list Event) : Disk :=
  fold_left replayEvent tr d.

(** The directory is made only where it is absent, and a screenshot is
    written only where it exists. *)
Fixpoint dirOk (d : Disk) (tr : list Event) : Prop :=
  match tr with
  | [] => True
  | ev :: tr' =>
      match ev with
      | Mkdir => dirExists d = false
      | Screenshot _ _ => dirExists d = true
      | _ => True
      end /\ dirOk (replayEvent d ev) tr'
  end.

(** The records of the pages the source returns for a list of requests,
    in order; a rejected request has none. *)
Definition pageItems (W : World) (request : jsstring * jsstring)
  : list Api.Item :=
  match commentThreads_list W request.1 request.2 with
  | Ok response => Api.items response
  | Fails _ => []
  end.

Definition pagesItems (W : World) (requests : list (jsstring * jsstring))
  : list Api.Item :=
  concat (pageItems W <$> requests).

(** The requests for a video went to its last page: the last of them was
    answered without a page token to go on with. *)
Definition complete (W : World) (videoId : jsstring)
           (requests : list (jsstring * jsstring)) : Prop :=
  exists pageToken response,
    last requests = Some (videoId, pageToken) /\
    commentThreads_list W videoId pageToken = Ok response /\
    truthy (Api.nextPageToken response) = false.

(** A code unit of a file name: a lower-case ASCII letter, an ASCII digit
    or the underscore. *)
Definition isNameUnit (u : N) : bool :=
  isLowerAZ u || isDigit u || (u =? 0x5F)%N.


(** The trace accounts for the disk: the disk is the one found with the
    events replayed, the directory handled in order, every screenshot at
    the path of some user name. *)
Definition accounted (d0 : Disk) (st : State) : Prop :=
  disk st = replay d0 (trace st) /\ dirOk d0 (trace st) /\
  Forall (fun ev => forall p i, ev = Screenshot p i -> exists u, p = filePath u)
         (trace st).

(** Every saved line of a trace is backed by a screenshot at the path of
    its user, and there are no more saved lines than screenshots, nor
    more screenshots than calls of the renderer. *)
Definition savedBacked (tr : list Event) : Prop :=
  (forall u t, Console (Saved u t) ∈ tr ->
               exists i, Screenshot (filePath u) i ∈ tr) /\
  count isSaved tr <= count isScreenshot tr /\
  count isScreenshot tr <= count isRender tr.

Arguments requestsOf : simpl never.
Arguments fetchedOf : simpl never.
Arguments scannedOf : simpl never.
Arguments pagesItems : simpl never.

(** * Properties *)

(** ** Strings *)

Lemma startsWith_spec (s t : jsstring) :
  startsWith s t = true <-> exists post, s = t ++ post.
Proof.
  revert s. induction t as [|b t IH]; intros s; simpl.
  - split; [intros _; by exists s | done].
  - destruct s as [|a s].
    + split; [done | intros [post H]; done].
    + rewrite andb_true_iff, N.eqb_eq, IH. split.
      * intros [-> [post ->]]. eauto.
      * intros [post H]. injection H as -> ->. eauto.
Qed.

Lemma includes_spec (s t : jsstring) :
  includes s t = true <-> substring t s.
Proof.
  unfold substring. induction s as [|a s IH]; simpl.
  - rewrite orb_false_r, startsWith_spec. split.
    + intros [post H]. by exists [], post.
    + intros (pre & post & H). destruct pre; simpl in H; [eauto | done].
  - rewrite orb_true_iff, startsWith_spec, IH. split.
    + intros [[post H] | (pre & post & H)].
      * by exists [], post.
      * exists (a :: pre), post. simpl. by f_equal.
    + intros (pre & post & H). destruct pre as [|x pre]; simpl in H.
      * left; eauto.
      * right. injection H as -> ->. eauto.
Qed.

Lemma includes_empty (s : jsstring) : includes s [] = true.
Proof. destruct s; reflexivity. Qed.

Lemma lowerUnit_length (u : N) : 1 <= length (lowerUnit u).
Proof. unfold lowerUnit. repeat case_match; simpl; lia. Qed.

Lemma toLowerCase_length (s : jsstring) : length s <= length (toLowerCase s).
Proof.
  induction s as [|u s IH]; simpl; [lia|].
  rewrite length_app. pose proof (lowerUnit_length u). lia.
Qed.

Lemma matched_fold (text : jsstring) (terms : list jsstring) (acc : bool) :
  fold_left (fun m term => if includes text (toLowerCase term) then true else m)
            terms acc
  = acc || existsb (fun term => includes text (toLowerCase term)) terms.
Proof.
  revert acc. induction terms as [|t terms IH]; intros acc; simpl.
  - by rewrite orb_false_r.
  - rewrite IH. destruct (includes text (toLowerCase t)), acc; reflexivity.
Qed.

Lemma matched_spec (terms : list jsstring) (text : jsstring) :
  matched terms text = true <->
  exists term, term ∈ terms /\ substring (toLowerCase term) text.
Proof.
  unfold matched. rewrite matched_fold. simpl. rewrite existsb_exists.
  split; intros (term & Hin & H); exists term.
  - by rewrite list_elem_of_In, <- includes_spec.
  - by rewrite <- list_elem_of_In, includes_spec.
Qed.

(** ** The renderer *)

Lemma generateCommentImage_outcome W cd th st :
  exists sub d',
    generateCommentImage W cd th st =
      (let st' := {| totalCommentsFetched := totalCommentsFetched st;
                     trace := trace st ++ Render cd th :: sub;
                     disk := d' |} in
       match renderError W cd th with
       | Some e => Threw e st'
       | None => Returned tt st'
       end) /\
    forallb isInternal sub = true /\ grows sub (disk st) d' /\
    (renderError W cd th = None ->
     exists img,
       d' = {| dirExists := true;
               files := <[filePath (username cd) := img]> (files (disk st)) |}
       /\ count isScreenshot sub = 1
       /\ Screenshot (filePath (username cd)) img ∈ sub).
Proof.
  run_render.
  destruct (parseISO W (datePosted cd)) as [[t|]|e1]; simpl.
  2: destruct (newDate W (datePosted cd)) as [t|]; simpl.
  4: destruct (parseISO_of_Date W _) as [[t|]|e1']; simpl.
  all: try (destruct (engine_boundingBox W _) as [box|e2]; simpl;
            [destruct (dirExists (disk st)) eqn:Hdir; simpl; rewrite ?Hdir;
             (destruct (engine_screenshot W _ _) as [img | e3]; simpl;
              [destruct (engine_close W _) as [e4|]; simpl|])|]).
  all: try rewrite Hdir; render_leaf.
Qed.

(** ** One record *)

Lemma processItem_unfold W c item st :
  processItem W c item st =
  if isMatched c item then
    if (0 <? length (reasonOf c item))%nat then
      Returned tt (push (push st (Scan item))
                        (Console (Rejected
                                    (Api.authorDisplayName (Api.topLevelComment item))
                                    (reasonOf c item))))
    else
      match generateCommentImage W (commentDataOf (Api.topLevelComment item))
                                 (theme c) (push st (Scan item)) with
      | Returned _ st1 =>
          Returned tt
            (bump (push st1 (Console (Saved
                                        (Api.authorDisplayName (Api.topLevelComment item))
                                        (Api.textDisplay (Api.topLevelComment item))))))
      | Threw e st1 => Threw e st1
      | Diverged st1 => Diverged st1
      end
  else Returned tt (push st (Scan item)).
Proof.
  unfold processItem, isMatched, reasonOf, commentTextOf. unfold_M.
  destruct (matched _ _); [|reflexivity].
  destruct (0 <? _)%nat; reflexivity.
Qed.

(** The three ways the body of the record loop can go. *)
Lemma processItem_outcome W c item st :
  let snippet := Api.topLevelComment item in
  let cd := commentDataOf snippet in
  (isMatched c item = false /\
   processItem W c item st = Returned tt (push st (Scan item)))
  \/
  (isMatched c item = true /\ reasonOf c item <> [] /\
   processItem W c item st =
     Returned tt (push (push st (Scan item))
                       (Console (Rejected (Api.authorDisplayName snippet)
                                          (reasonOf c item)))))
  \/
  (isMatched c item = true /\ reasonOf c item = [] /\
   exists sub d',
     forallb isInternal sub = true /\ grows sub (disk st) d' /\
     processItem W c item st =
       match renderError W cd (theme c) with
       | Some e =>
           Threw e {| totalCommentsFetched := totalCommentsFetched st;
                      trace := trace st ++ [Scan item; Render cd (theme c)] ++ sub;
                      disk := d' |}
       | None =>
           Returned tt
             {| totalCommentsFetched := (totalCommentsFetched st + 1)%Z;
                trace := trace st ++ [Scan item; Render cd (theme c)] ++ sub
                           ++ [Console (Saved (Api.authorDisplayName snippet)
                                              (Api.textDisplay snippet))];
                disk := d' |}
       end /\
     (renderError W cd (theme c) = None ->
      exists img,
        d' = {| dirExists := true;
                files := <[filePath (username cd) := img]> (files (disk st)) |}
        /\ count isScreenshot sub = 1
        /\ Screenshot (filePath (username cd)) img ∈ sub)).
Proof.
  intros snippet cd. rewrite processItem_unfold.
  destruct (isMatched c item); [|by left].
  right. destruct (reasonOf c item) as [|r rs] eqn:Hr; simpl.
  - right. split; [done|]. split; [done|].
    destruct (generateCommentImage_outcome W cd (theme c) (push st (Scan item)))
      as (sub & d' & Heq & Hint & Hg & Hok).
    exists sub, d'. split; [done|]. split; [done|]. split; [|done].
    fold snippet. fold cd. rewrite Heq. simpl.
    destruct (renderError W cd (theme c)); unfold bump, push; simpl;
      rewrite <- ?app_assoc; simpl; reflexivity.
  - left. split; [done|]. split; [done|]. reflexivity.
Qed.

(** ** The loops

    A rule for the three nested loops: a property of states that survives
    the line of a new video, a page request and the body of the record
    loop holds when the loops are left. *)

Section LoopRule.

Variable W : World.
Variable c : Criteria.
Variable I : State -> Prop.
Variable T : Error -> State -> Prop.

Hypothesis fetch_ok :
  forall st videoId,
    I st -> admissible c st -> I (push st (Console (Fetching videoId))).

Hypothesis request_ok :
  forall st videoId pageToken,
    I st -> admissible c st ->
    match commentThreads_list W videoId pageToken with
    | Ok _ => I (push st (Request videoId pageToken))
    | Fails e => T e (push st (Request videoId pageToken))
    end.

Hypothesis item_ok :
  forall st item,
    I st -> open c st -> post_item I T (processItem W c item st).

Lemma scanItems_rule items st :
  I st -> post_item I T (scanItems W c items st).
Proof.
  revert st. induction items as [|item rest IH]; intros st HI; simpl.
  - exact HI.
  - unfold_M. destruct (Z.leb_spec (maxLimit c) (totalCommentsFetched st)).
    + exact HI.
    + pose proof (item_ok st item HI) as Hitem. unfold open in Hitem.
      destruct (processItem W c item st) as [[] st'|e st'|st']; simpl in *;
        auto.
Qed.

Lemma pageLoop_rule fuel videoId pageToken st :
  I st -> admissible c st ->
  post c I T (pageLoop W fuel c videoId pageToken st).
Proof.
  revert pageToken st.
  induction fuel as [|fuel IH]; intros pageToken st HI Hadm; simpl.
  - split; assumption.
  - unfold_M. pose proof (request_ok st videoId pageToken HI Hadm) as Hreq.
    destruct (commentThreads_list W videoId pageToken) as [response|e];
      simpl; [|exact Hreq].
    pose proof (scanItems_rule (Api.items response) _ Hreq) as Hscan.
    destruct (scanItems W c (Api.items response) _) as [[] st'|e st'|st'];
      simpl in *; [|exact Hscan|contradiction].
    destruct (truthy (Api.nextPageToken response)); simpl; [|exact Hscan].
    destruct (Z.ltb_spec (totalCommentsFetched st') (maxLimit c));
      [|exact Hscan].
    apply IH; [exact Hscan | by left].
Qed.

Lemma videoLoop_rule fuel videoIds st :
  I st -> admissible c st -> post c I T (videoLoop W fuel c videoIds st).
Proof.
  revert st. induction videoIds as [|videoId rest IH]; intros st HI Hadm;
    simpl.
  - exact HI.
  - unfold_M.
    pose proof (pageLoop_rule fuel videoId [] _
                  (fetch_ok st videoId HI Hadm) Hadm) as Hpage.
    destruct (pageLoop W fuel c videoId [] _) as [[] st'|e st'|st'];
      simpl in *; [|exact Hpage|exact Hpage].
    destruct (Z.leb_spec (maxLimit c) (totalCommentsFetched st'));
      [exact Hpage|].
    apply IH; [exact Hpage | by left].
Qed.

End LoopRule.

Lemma admissible_start c d : admissible c (start d).
Proof. unfold admissible, open. simpl. lia. Qed.

(** The rule for a whole run: the promise is never rejected once the
    parameters are valid, and an error leaves the state in which it was
    thrown, with its report appended. *)
Lemma getComments_rule W (I : State -> Prop) (T : Error -> State -> Prop)
      fuel params d :
  let c := destructure params in
  validateParams params = None ->
  (forall st videoId,
      I st -> admissible c st -> I (push st (Console (Fetching videoId)))) ->
  (forall st videoId pageToken,
      I st -> admissible c st ->
      match commentThreads_list W videoId pageToken with
      | Ok _ => I (push st (Request videoId pageToken))
      | Fails e => T e (push st (Request videoId pageToken))
      end) ->
  (forall st item, I st -> open c st -> post_item I T (processItem W c item st)) ->
  I (start d) ->
  match getComments W fuel params d with
  | Fulfilled st =>
      I st \/ exists e st', T e st' /\ st = push st' (ConsoleError e)
  | Pending st => I st /\ admissible c st
  | Failed _ _ => False
  end.
Proof.
  intros c Hvalid Hfetch Hreq Hitem Hstart. unfold getComments.
  rewrite Hvalid. fold c. unfold tryCatch.
  pose proof (videoLoop_rule W c I T Hfetch Hreq Hitem fuel (videoIdArray c)
                (start d) Hstart (admissible_start c d)) as Hrun.
  destruct (videoLoop W fuel c (videoIdArray c) (start d))
    as [[] st|e st|st]; simpl in *.
  - by left.
  - right. exists e, st. split; [exact Hrun | reflexivity].
  - exact Hrun.
Qed.

(** ** Counting events *)

Lemma count_app p l1 l2 : count p (l1 ++ l2) = count p l1 + count p l2.
Proof. induction l1 as [|ev l1 IH]; simpl; [reflexivity | rewrite IH; lia]. Qed.

Lemma count_excluded (p q : Event -> bool) l :
  (forall ev, q ev = true -> p ev = false) ->
  forallb q l = true -> count p l = 0.
Proof.
  intros Hpq. induction l as [|ev l IH]; simpl; [reflexivity|].
  rewrite andb_true_iff. intros [Hq Hl]. rewrite (Hpq ev Hq), IH; done.
Qed.

Lemma internal_not_saved sub :
  forallb isInternal sub = true -> count isSaved sub = 0.
Proof. apply count_excluded. by intros [[]| | | | | |]. Qed.

Lemma internal_not_render sub :
  forallb isInternal sub = true -> count isRender sub = 0.
Proof. apply count_excluded. by intros [[]| | | | | |]. Qed.

Lemma internal_not_error sub :
  forallb isInternal sub = true -> count isConsoleError sub = 0.
Proof. apply count_excluded. by intros [[]| | | | | |]. Qed.

Lemma internal_not_verdict sub :
  forallb isInternal sub = true -> count isVerdict sub = 0.
Proof. apply count_excluded. by intros [[]| | | | | |]. Qed.

(** ** The quota *)










(** ** The filter *)

Lemma reason_nil_length (l : list jsstring) :
  (0 <? length l)%nat = false <-> l = [].
Proof. destruct l; simpl; split; (done || discriminate). Qed.

Lemma accepted_spec c item :
  accepted c item = true <-> isMatched c item = true /\ reasonOf c item = [].
Proof.
  unfold accepted. rewrite andb_true_iff, negb_true_iff, reason_nil_length.
  reflexivity.
Qed.

(** The renderer is called for a record exactly when it is accepted. *)
Lemma processItem_renders W c item st :
  count isRender (trace (stateOf (processItem W c item st)))
  = count isRender (trace st) + (if accepted c item then 1 else 0).
Proof.
  unfold accepted.
  destruct (processItem_outcome W c item st)
    as [(Hm & ->) | [(Hm & Hr & ->) | (Hm & Hr & sub & d' & Hint & _ & -> & _)]];
    rewrite Hm; simpl.
  - rewrite count_app. simpl. lia.
  - destruct (reasonOf c item); [done|]. simpl. rewrite !count_app. simpl. lia.
  - rewrite Hr. simpl. pose proof (internal_not_render sub Hint) as Hn.
    destruct (renderError W _ _); simpl; rewrite !count_app; simpl;
      rewrite ?count_app; simpl; lia.
Qed.






(** The length check of a matched record measures the lower-cased text:
    its reason is pushed exactly when that text is longer than
    [maxChars]; a text whose own length exceeds [maxChars] is therefore
    rejected with it. *)
Lemma chars_check_spec c item m :
  maxChars c = Some m ->
  (charsReason m (length (commentTextOf item)) ∈ reasonOf c item <->
   (m < Z.of_nat (length (commentTextOf item)))%Z) /\
  ((m < Z.of_nat (length (Api.textDisplay (Api.topLevelComment item))))%Z ->
   charsReason m (length (commentTextOf item)) ∈ reasonOf c item /\
   accepted c item = false).
Proof.
  intros Hmax.
  assert (Hiff : charsReason m (length (commentTextOf item)) ∈ reasonOf c item
                 <-> (m < Z.of_nat (length (commentTextOf item)))%Z).
  { unfold reasonOf, reason. rewrite Hmax. simpl.
    destruct (Z.ltb_spec m (Z.of_nat (length (commentTextOf item)))).
    - split; [done|]. intros _. rewrite elem_of_app. right.
      apply list_elem_of_singleton. reflexivity.
    - split; [|lia]. intros Hin. exfalso.
      repeat match type of Hin with
             | context [if ?b then _ else _] => destruct b
             end; simpl in Hin;
        repeat (apply elem_of_cons in Hin as [Heq|Hin];
                [unfold charsReason, likesReason, repliesReason,
                   filteredReason in Heq; simpl in Heq; discriminate|]);
        by apply elem_of_nil in Hin. }
  split; [exact Hiff|]. intros Hraw.
  assert (Hin : charsReason m (length (commentTextOf item)) ∈ reasonOf c item).
  { apply Hiff. unfold commentTextOf.
    pose proof (toLowerCase_length
                  (Api.textDisplay (Api.topLevelComment item))). lia. }
  split; [exact Hin|].
  apply not_true_is_false. rewrite accepted_spec. intros [_ Hnil].
  rewrite Hnil in Hin. by apply elem_of_nil in Hin.
Qed.

(** C5. Evaluated on a comment of six code units U+0130 with
    [maxChars = 10]: the record is matched (its lower case has the letter
    i), its text has 6 code units, and it is rejected for exceeding the
    maximum, the length measured being 12, that of the lower-cased text. *)
Theorem C5_length_of_lowered_text :
  let c := destructure strictParams in
  maxChars c = Some 10%Z /\
  isMatched c dottedComment = true /\
  length (Api.textDisplay (Api.topLevelComment dottedComment)) = 6 /\
  reasonOf c dottedComment = [charsReason 10 12] /\
  accepted c dottedComment = false.
Proof. repeat split. Qed.

Lemma toLowerCase_empty : toLowerCase [] = [].
Proof. reflexivity. Qed.

(** C10. If the empty string is among the search terms, every record is
    matched, whatever its text; a record is then accepted, and the
    renderer called for it, as soon as its four checks pass. *)
Theorem C10_empty_term_matches_all W c item st :
  [] ∈ searchTermArray c ->
  isMatched c item = true /\
  (reasonOf c item = [] ->
   accepted c item = true /\
   count isRender (trace (stateOf (processItem W c item st)))
   = count isRender (trace st) + 1).
Proof.
  intros Hin.
  assert (Hm : isMatched c item = true).
  { unfold isMatched. apply matched_spec. exists []. split; [exact Hin|].
    rewrite toLowerCase_empty. apply includes_spec, includes_empty. }
  split; [exact Hm|]. intros Hr.
  assert (Hacc : accepted c item = true) by by apply accepted_spec.
  split; [exact Hacc|]. by rewrite processItem_renders, Hacc.
Qed.

Lemma C10_witness :
  isMatched (destructure (sampleParams [[]] 5)) (thread "Ann" "What a dog" 3 0)
  = true.
Proof.
  refine (proj1 (C10_empty_term_matches_all sampleWorld
                   (destructure (sampleParams [[]] 5))
                   (thread "Ann" "What a dog" 3 0) (start emptyDisk) _)).
  simpl. apply list_elem_of_In. simpl. left. reflexivity.
Defined.

(** ** Runs without search terms *)







(** ** File names *)

Lemma lowerUnit_replace (u : N) :
  lowerUnit (if isLowerAZ u || isUpperAZ u || isDigit u then u else 0x5F%N)
  = [fileNameUnit u].
Proof.
  unfold lowerUnit, fileNameUnit, isLowerAZ, isUpperAZ, isDigit.
  repeat match goal with
         | |- context [(?a <=? ?b)%N] => destruct (N.leb_spec a b)
         | |- context [(?a =? ?b)%N] => destruct (N.eqb_spec a b)
         end; simpl in *; try reflexivity; lia.
Qed.

Lemma fileName_units (s : jsstring) :
  toLowerCase (replaceNonAlnum s) = fileNameUnit <$> s.
Proof.
  induction s as [|u s IH]; [reflexivity|].
  change (toLowerCase (replaceNonAlnum (u :: s)))
    with (lowerUnit (if isLowerAZ u || isUpperAZ u || isDigit u
                     then u else 0x5F%N)
            ++ toLowerCase (replaceNonAlnum s)).
  rewrite lowerUnit_replace, IH. reflexivity.
Qed.

Lemma filePath_spec (u : jsstring) :
  filePath u = lit "comment-images/" ++ (fileNameUnit <$> u) ++ lit ".png".
Proof. unfold filePath, path_join. rewrite fileName_units. reflexivity. Qed.

(** C6. The path of the image is a function of the user name alone:
    [comment-images/], then one code unit for each code unit of the name,
    a digit or lower-case ASCII letter kept, an upper-case ASCII letter
    lowered, anything else replaced by an underscore, then [.png]. The
    name O'Brien! gives [o_brien_.png]; so does the different name
    o brien?; and two comments whose paths coincide, rendered one after
    the other without error, leave one file at that path, holding the
    image of the later one. *)
Theorem C6_file_name :
  (forall u,
      filePath u = lit "comment-images/" ++ (fileNameUnit <$> u) ++ lit ".png")
  /\ filePath (lit "O'Brien!") = lit "comment-images/o_brien_.png"
  /\ (lit "O'Brien!" <> lit "o brien?" /\
      filePath (lit "O'Brien!") = filePath (lit "o brien?"))
  /\ (forall W cd1 cd2 th st,
         filePath (username cd1) = filePath (username cd2) ->
         renderError W cd1 th = None ->
         renderError W cd2 th = None ->
         exists st1 st2 img1 img2,
           generateCommentImage W cd1 th st = Returned tt st1 /\
           generateCommentImage W cd2 th st1 = Returned tt st2 /\
           files (disk st1)
             = <[filePath (username cd1) := img1]> (files (disk st)) /\
           Screenshot (filePath (username cd2)) img2 ∈ trace st2 /\
           files (disk st2)
             = <[filePath (username cd1) := img2]> (files (disk st)) /\
           count isConsoleError (trace st2) = count isConsoleError (trace st)).
Proof.
  split; [exact filePath_spec|]. split; [reflexivity|].
  split; [split; [discriminate | reflexivity]|].
  intros W cd1 cd2 th st Hpath Hok1 Hok2.
  destruct (generateCommentImage_outcome W cd1 th st)
    as (sub1 & d1 & Hrun1 & Hint1 & _ & Hd1).
  destruct (Hd1 Hok1) as (img1 & -> & _ & _).
  rewrite Hok1 in Hrun1. simpl in Hrun1.
  match type of Hrun1 with _ = Returned tt ?s => set (st1 := s) in * end.
  destruct (generateCommentImage_outcome W cd2 th st1)
    as (sub2 & d2 & Hrun2 & Hint2 & _ & Hd2).
  destruct (Hd2 Hok2) as (img2 & -> & _ & Hshot).
  rewrite Hok2 in Hrun2. simpl in Hrun2.
  eexists st1, _, img1, img2.
  split; [exact Hrun1|]. split; [exact Hrun2|]. simpl.
  split; [reflexivity|]. split.
  { apply elem_of_app. right. apply elem_of_cons. right. exact Hshot. }
  split.
  { rewrite <- Hpath. apply insert_insert_eq. }
  rewrite !count_app. simpl. rewrite ?count_app. simpl.
  rewrite (internal_not_error _ Hint1), (internal_not_error _ Hint2). lia.
Qed.

Lemma C6_witness :
  exists st1 st2 img1 img2,
    generateCommentImage sampleWorld
      (customComment "O'Brien!" "2023-07-01T14:48:00.000Z" "first")
      (lit "dark") (start emptyDisk) = Returned tt st1 /\
    generateCommentImage sampleWorld
      (customComment "o brien?" "2023-07-01T14:48:00.000Z" "second")
      (lit "dark") st1 = Returned tt st2 /\
    files (disk st1) = <[lit "comment-images/o_brien_.png" := img1]> ∅ /\
    Screenshot (lit "comment-images/o_brien_.png") img2 ∈ trace st2 /\
    files (disk st2) = <[lit "comment-images/o_brien_.png" := img2]> ∅ /\
    count isConsoleError (trace st2) = 0.
Proof.
  refine (proj2 (proj2 (proj2 C6_file_name)) sampleWorld
            (customComment "O'Brien!" "2023-07-01T14:48:00.000Z" "first")
            (customComment "o brien?" "2023-07-01T14:48:00.000Z" "second")
            (lit "dark") (start emptyDisk) _ _ _); reflexivity.
Defined.

(** ** Custom comments *)

Lemma renderCalls_app l1 l2 :
  renderCalls (l1 ++ l2) = renderCalls l1 ++ renderCalls l2.
Proof. apply omap_app. Qed.

Lemma internal_no_calls sub :
  forallb isInternal sub = true -> renderCalls sub = [].
Proof.
  induction sub as [|ev sub IH]; simpl; [reflexivity|].
  rewrite andb_true_iff. intros [Hev Hsub].
  unfold renderCalls in *. simpl. rewrite (IH Hsub).
  by destruct ev as [[]| | | | | |].
Qed.

Lemma size_list_to_set_le (l : list jsstring) :
  size (list_to_set l : gset jsstring) <= length l.
Proof.
  induction l as [|x l IH].
  - rewrite list_to_set_nil, size_empty. reflexivity.
  - rewrite list_to_set_cons, size_union_alt, size_singleton. simpl.
    pose proof (subseteq_size (list_to_set l ∖ {[x]})
                              (list_to_set l : gset jsstring)
                              ltac:(set_solver)).
    lia.
Qed.

Lemma customLoop_outcome W th comments st :
  (forall cd, cd ∈ comments -> renderError W cd th = None) ->
  exists st',
    customLoop W th comments st = Returned tt st' /\
    renderCalls (trace st')
      = renderCalls (trace st) ++ ((fun cd => (cd, th)) <$> comments) /\
    count isScreenshot (trace st')
      = count isScreenshot (trace st) + length comments /\
    dom (files (disk st'))
      = dom (files (disk st))
          ∪ list_to_set ((fun cd => filePath (username cd)) <$> comments).
Proof.
  revert st. induction comments as [|cd rest IH]; intros st Hok; simpl.
  - exists st. unfold ret. rewrite app_nil_r, Nat.add_0_r.
    split; [reflexivity|]. split; [reflexivity|]. split; [reflexivity|].
    set_solver.
  - unfold_M.
    destruct (generateCommentImage_outcome W cd th st)
      as (sub & d' & -> & Hint & _ & Hd).
    assert (Hcd : renderError W cd th = None) by (apply Hok; set_solver).
    destruct (Hd Hcd) as (img & -> & Hone & _). rewrite Hcd. simpl.
    match goal with
    | |- context [customLoop W th rest ?s] =>
        destruct (IH s) as (st' & Hrun & Hcalls & Hshots & Hdom)
    end.
    { intros cd' Hin. apply Hok. set_solver. }
    exists st'. split; [exact Hrun|].
    cbn [trace disk files push] in Hcalls, Hshots, Hdom.
    rewrite !renderCalls_app in Hcalls.
    change (renderCalls (Render cd th :: sub))
      with ((cd, th) :: renderCalls sub) in Hcalls.
    rewrite (internal_no_calls sub Hint) in Hcalls.
    change (renderCalls [Console (SavedCustom (username cd))])
      with (@nil (CommentData * jsstring)) in Hcalls.
    rewrite app_nil_r, <- app_assoc in Hcalls.
    rewrite !count_app in Hshots. cbn [count isScreenshot] in Hshots.
    rewrite ?count_app in Hshots. cbn [count isScreenshot] in Hshots.
    split; [exact Hcalls|]. split; [cbn [length]; lia|].
    rewrite Hdom, dom_insert_L. set_solver.
Qed.

(** C7, as the program has it. For a list of comments each of which
    renders without error, [generateCustomComments] is fulfilled, calls the
    renderer once per comment, in list order and with the theme given, and
    takes one screenshot per call; no criteria enter. The files on the
    disk afterwards are those found there and one per path of the list: as
    many new files as comments when the paths of the list differ from one
    another and from the files found, fewer otherwise. *)
Theorem C7_custom_comments W comments th d :
  (forall cd, cd ∈ comments -> renderError W cd th = None) ->
  let paths := (fun cd => filePath (username cd)) <$> comments in
  exists st,
    generateCustomComments W comments th d = Fulfilled st /\
    renderCalls (trace st) = (fun cd => (cd, th)) <$> comments /\
    count isScreenshot (trace st) = length comments /\
    dom (files (disk st)) = dom (files d) ∪ list_to_set paths /\
    size (files (disk st)) <= size (files d) + length comments /\
    (NoDup paths -> (forall p, p ∈ paths -> files d !! p = None) ->
     size (files (disk st)) = size (files d) + length comments).
Proof.
  intros Hok paths.
  destruct (customLoop_outcome W th comments (start d) Hok)
    as (st & Hrun & Hcalls & Hshots & Hdom).
  exists st. unfold generateCustomComments. rewrite Hrun. simpl in *.
  fold paths in Hdom.
  split; [reflexivity|]. split; [exact Hcalls|]. split; [exact Hshots|].
  split; [exact Hdom|].
  rewrite <- !size_dom, Hdom.
  assert (Hlen : length paths = length comments)
    by (unfold paths; apply length_fmap).
  split.
  - rewrite size_union_alt.
    pose proof (subseteq_size (list_to_set paths ∖ dom (files d))
                              (list_to_set paths : gset jsstring)
                              ltac:(set_solver)).
    pose proof (size_list_to_set_le paths). lia.
  - intros Hnd Hfresh. rewrite size_union.
    + rewrite size_list_to_set by exact Hnd. lia.
    + intros p Hp1 Hp2. apply elem_of_list_to_set in Hp2.
      apply elem_of_dom in Hp1 as [img Himg]. rewrite (Hfresh p Hp2) in Himg.
      discriminate.
Qed.

Lemma C7_counterexample :
  exists st,
    generateCustomComments sampleWorld [firstComment; secondComment]
                           (lit "dark") emptyDisk = Fulfilled st /\
    renderCalls (trace st)
      = [(firstComment, lit "dark"); (secondComment, lit "dark")] /\
    size (files (disk st)) = 1 /\
    size (files (disk st)) <> length [firstComment; secondComment].
Proof.
  eexists. split; [reflexivity|]. split; [reflexivity|].
  split; [reflexivity|]. vm_compute. discriminate.
Qed.

Lemma C7_witness :
  exists st,
    generateCustomComments sampleWorld readmeComments (lit "light") emptyDisk
      = Fulfilled st /\
    renderCalls (trace st) = (fun cd => (cd, lit "light")) <$> readmeComments /\
    count isScreenshot (trace st) = 2 /\
    size (files (disk st)) = 2.
Proof.
  destruct (C7_custom_comments sampleWorld readmeComments (lit "light")
              emptyDisk) as (st & Hrun & Hcalls & Hshots & _ & _ & Hsize).
  { intros cd Hin. apply list_elem_of_In in Hin. simpl in Hin.
    destruct Hin as [<-|[<-|[]]]; reflexivity. }
  exists st. split; [exact Hrun|]. split; [exact Hcalls|].
  split; [exact Hshots|]. apply Hsize.
  - vm_compute. repeat constructor; rewrite ?elem_of_cons, ?elem_of_nil;
      intuition discriminate.
  - intros p _. reflexivity.
Defined.

(** ** The date label *)

(** C8, as the program has it. [generateCommentHTML] logs the date, then
    takes the result of [parseISO] when it is a valid date, and that of
    [new Date] when it is not; the label is the distance to now of the
    date so found. When [new Date] gives an Invalid Date too, no label is
    made: [formatDistanceToNow] throws a [RangeError], which leaves
    [generateCommentHTML] and [generateCommentImage] before the browser is
    started or a file written. *)
Theorem C8_date_label W cd th st :
  let d := datePosted cd in
  let st1 := push st (Console (DatePosted d)) in
  (forall t,
      parseISO W d = Ok (Some t) ->
      generateCommentHTML W cd th st
      = Returned (htmlOf cd th (formatDistance W t)) st1) /\
  (forall t,
      parseISO W d = Ok None -> newDate W d = Some t ->
      generateCommentHTML W cd th st
      = Returned (htmlOf cd th (formatDistance W t)) st1) /\
  (parseISO W d = Ok None -> newDate W d = None ->
   generateCommentHTML W cd th st = Threw invalidTime st1 /\
   generateCommentImage W cd th st
   = Threw invalidTime
       (push (push st (Render cd th)) (Console (DatePosted d))) /\
   renderError W cd th = Some invalidTime).
Proof.
  intros d st1. subst d st1. run_render. unfold htmlOf.
  split; [|split].
  - intros t ->. reflexivity.
  - intros t -> ->. reflexivity.
  - intros -> ->. repeat split.
Qed.

Lemma C8_witness :
  generateCommentImage sampleWorld undatedComment (lit "dark") (start emptyDisk)
  = Threw invalidTime
          (push (push (start emptyDisk) (Render undatedComment (lit "dark")))
                (Console (DatePosted (datePosted undatedComment)))).
Proof.
  refine (proj1 (proj2 (proj2 (proj2 (C8_date_label sampleWorld undatedComment
                                        (lit "dark") (start emptyDisk)))
                              _ _))); reflexivity.
Defined.

Lemma C8_counterexample :
  parseISO sampleWorld (datePosted undatedComment) = Ok None /\
  newDate sampleWorld (datePosted undatedComment) = None /\
  generateCommentHTML sampleWorld undatedComment (lit "dark") (start emptyDisk)
  = Threw invalidTime
          (push (start emptyDisk)
                (Console (DatePosted (datePosted undatedComment)))) /\
  (exists st,
      generateCustomComments sampleWorld [undatedComment; firstComment]
                             (lit "dark") emptyDisk
      = Failed invalidTime st /\
      count isScreenshot (trace st) = 0).
Proof.
  split; [reflexivity|]. split; [reflexivity|]. split; [reflexivity|].
  eexists. split; reflexivity.
Qed.

(** ** Errors *)

Lemma internal_calm W sub :
  forallb isInternal sub = true -> Forall (calm W) sub.
Proof.
  induction sub as [|ev sub IH]; simpl; [constructor|].
  rewrite andb_true_iff. intros [Hev Hsub]. constructor; [|auto].
  by destruct ev as [[]| | | | | |].
Qed.

Lemma calm_push W st ev :
  calm W ev -> calmInv W st -> calmInv W (push st ev).
Proof.
  unfold calmInv. simpl. intros Hev Hst. apply Forall_app. split; [done|].
  by constructor.
Qed.

Lemma calm_fetch_ok W st videoId :
  calmInv W st -> calmInv W (push st (Console (Fetching videoId))).
Proof. by apply calm_push. Qed.

Lemma calm_start W d : calmInv W (start d).
Proof. constructor. Qed.

Lemma calm_request_ok W st videoId pageToken :
  calmInv W st ->
  match commentThreads_list W videoId pageToken with
  | Ok _ => calmInv W (push st (Request videoId pageToken))
  | Fails e => calmThrew W e (push st (Request videoId pageToken))
  end.
Proof.
  intros Hst.
  destruct (commentThreads_list W videoId pageToken) as [r|e] eqn:Hlist.
  - apply calm_push; [|exact Hst]. split; [|reflexivity]. simpl.
    by rewrite Hlist.
  - exists (trace st), (Request videoId pageToken), [].
    split; [reflexivity|]. split; [exact Hst|]. split; [|reflexivity].
    simpl. by rewrite Hlist.
Qed.

Lemma calm_item_ok W c st item :
  calmInv W st -> post_item (calmInv W) (calmThrew W) (processItem W c item st).
Proof.
  intros Hst.
  destruct (processItem_outcome W c item st)
    as [(_ & ->) | [(_ & _ & ->) | (_ & _ & sub & d' & Hint & _ & -> & _)]];
    simpl.
  - by apply calm_push.
  - by repeat apply calm_push.
  - destruct (renderError W _ _) as [e|] eqn:Herr; simpl.
    + eexists (trace st ++ [Scan item]), _, sub.
      split; [by rewrite <- app_assoc|]. split.
      { apply Forall_app. split; [exact Hst|]. by repeat constructor. }
      split; [exact Herr | exact Hint].
    + unfold calmInv. simpl. apply Forall_app. split; [exact Hst|].
      constructor; [done|]. constructor; [by split|].
      apply Forall_app. split; [by apply internal_calm|].
      by repeat constructor.
Qed.

Lemma calm_count W l : Forall (calm W) l -> count isConsoleError l = 0.
Proof.
  induction 1 as [|ev l [_ Hev] _ IH]; simpl; [reflexivity|].
  by rewrite Hev, IH.
Qed.

(** Where a list is cut at an element that raises, when no other element
    does. *)
Lemma raising_position W l1 ev r l1' ev' r' e :
  l1 ++ ev :: r = l1' ++ ev' :: r' ->
  Forall (fun x => raises W x = None) l1 ->
  Forall (fun x => raises W x = None) r ->
  raises W ev' = Some e ->
  l1 = l1' /\ ev = ev' /\ r = r'.
Proof.
  revert l1'. induction l1 as [|x l1 IH]; intros l1' Heq H1 Hr Hev'.
  - destruct l1' as [|y l1']; simpl in Heq.
    + by injection Heq as -> ->.
    + exfalso. injection Heq as -> ->.
      apply Forall_app in Hr as [_ Hr]. inversion Hr; congruence.
  - destruct l1' as [|y l1']; simpl in Heq.
    + exfalso. injection Heq as <- _. inversion H1; congruence.
    + injection Heq as <- Heq. inversion H1; subst.
      destruct (IH l1' Heq) as (-> & -> & ->); auto.
Qed.

Lemma calm_quiet W l : Forall (calm W) l -> Forall (fun x => raises W x = None) l.
Proof. intros H. eapply Forall_impl; [exact H|]. by intros ev [? _]. Qed.

(** ** The disk *)

Lemma disk_push d0 st ev :
  isScreenshot ev = false -> diskInv d0 st -> diskInv d0 (push st ev).
Proof.
  unfold diskInv. simpl. intros Hev [Hdom Hshots]. split; [exact Hdom|].
  intros p img Hin. apply elem_of_app in Hin as [Hin|Hin]; [eauto|].
  apply list_elem_of_singleton in Hin. subst ev. discriminate.
Qed.

Lemma disk_request_ok W d0 st videoId pageToken :
  diskInv d0 st ->
  match commentThreads_list W videoId pageToken with
  | Ok _ => diskInv d0 (push st (Request videoId pageToken))
  | Fails _ => diskInv d0 (push st (Request videoId pageToken))
  end.
Proof.
  intros Hst. destruct (commentThreads_list W videoId pageToken);
    by apply disk_push.
Qed.

Lemma disk_start d : diskInv d (start d).
Proof. split; [done|]. intros p img Hin. by apply elem_of_nil in Hin. Qed.

Lemma disk_item_ok W c d0 st item :
  diskInv d0 st ->
  post_item (diskInv d0) (fun _ => diskInv d0) (processItem W c item st).
Proof.
  intros Hst.
  destruct (processItem_outcome W c item st)
    as [(_ & ->) | [(_ & _ & ->) | (_ & _ & sub & d' & _ & Hg & -> & _)]];
    simpl.
  - by apply disk_push.
  - by repeat apply disk_push.
  - destruct Hst as [Hdom Hshots]. destruct Hg as [Hsub Hnew].
    assert (Hinv : forall tail,
               (forall p img, Screenshot p img ∈ tail -> False) ->
               dom (files d0) ⊆ dom (files d') /\
               forall p img,
                 Screenshot p img
                   ∈ trace st ++ [Scan item;
                                  Render (commentDataOf (Api.topLevelComment item))
                                         (theme c)] ++ sub ++ tail ->
                 p ∈ dom (files d')).
    { intros tail Htail. split; [set_solver|]. intros p img Hin.
      rewrite !elem_of_app in Hin. destruct Hin as [Hin|[Hin|[Hin|Hin]]].
      - apply Hsub. eauto.
      - set_solver.
      - eauto.
      - exfalso. eauto. }
    destruct (renderError W _ _); simpl; unfold diskInv; simpl.
    + specialize (Hinv [] ltac:(set_solver)). by rewrite app_nil_r in Hinv.
    + apply Hinv. set_solver.
Qed.

(** C9. In a run of [getComments] with valid parameters the promise is
    never rejected. When a page request is rejected by the source, or a
    call of the renderer throws, with an error [e], the run is fulfilled
    and nothing follows that call in the trace but the events of the
    failed rendering itself and then [console.error] of [e], the last
    event; the console has at most one such line. Every file found on the
    disk is still there at the end, and so is the file of every
    screenshot taken during the run. *)
Theorem C9_errors_abort_run W fuel params d :
  validateParams params = None ->
  let p := getComments W fuel params d in
  let st := finalState p in
  (forall e st', p <> Failed e st') /\
  (forall l1 ev l2 e,
      trace st = l1 ++ ev :: l2 -> raises W ev = Some e ->
      p = Fulfilled st /\
      exists sub, l2 = sub ++ [ConsoleError e] /\ forallb isInternal sub = true)
  /\ count isConsoleError (trace st) <= 1
  /\ dom (files d) ⊆ dom (files (disk st))
  /\ (forall path img,
         Screenshot path img ∈ trace st -> path ∈ dom (files (disk st))).
Proof.
  intros Hvalid. cbv zeta.
  pose proof (getComments_rule W (calmInv W) (calmThrew W) fuel params d
                Hvalid
                (fun st v Hst _ => calm_fetch_ok W st v Hst)
                (fun st v t Hst _ => calm_request_ok W st v t Hst)
                (fun st item Hst _ => calm_item_ok W _ st item Hst)
                (calm_start W d)) as Hc.
  pose proof (getComments_rule W (diskInv d) (fun _ => diskInv d) fuel params d
                Hvalid
                (fun st v Hst _ =>
                   disk_push d st (Console (Fetching v)) eq_refl Hst)
                (fun st v t Hst _ => disk_request_ok W d st v t Hst)
                (fun st item Hst _ => disk_item_ok W _ d st item Hst)
                (disk_start d)) as Hdisk.
  cbv zeta in Hc, Hdisk.
  assert (Hd : diskInv d (finalState (getComments W fuel params d))).
  { 
    destruct (getComments W fuel params d) as [st|e st|st]; simpl.
    - destruct Hdisk as [H | (e & st' & H & ->)]; [exact H|].
      by apply disk_push.
    - contradiction.
    - exact (proj1 Hdisk). }
  clear Hdisk. destruct Hd as [Hdom Hshots].
  destruct (getComments W fuel params d) as [st|e st|st]; simpl in *;
    [|contradiction|].
  - split; [discriminate|].
    destruct Hc as [Hc | (e0 & st' & (l0 & ev0 & sub0 & Htr & Hl0 & Hev0 & Hint) & ->)].
    + split.
      * intros l1 ev l2 e Heq Hev. exfalso. unfold calmInv in Hc.
        rewrite Heq in Hc. apply Forall_app in Hc as [_ Hc].
        inversion Hc as [|? ? [Hnone _] _]. congruence.
      * split; [|split; assumption]. rewrite (calm_count W _ Hc). lia.
    + simpl in *. split; [|split; [|split; assumption]].
      * intros l1 ev l2 e Heq Hev. split; [reflexivity|].
        rewrite Htr, <- app_assoc in Heq. simpl in Heq.
        destruct (raising_position W _ _ _ _ _ _ e Heq) as (<- & <- & <-).
        -- exact (calm_quiet W _ Hl0).
        -- apply Forall_app. split.
           ++ by apply calm_quiet, internal_calm.
           ++ by repeat constructor.
        -- exact Hev.
        -- assert (e = e0) as -> by congruence.
           exists sub0. split; [reflexivity | exact Hint].
      * rewrite Htr, !count_app. simpl. rewrite ?count_app. simpl.
        rewrite (calm_count W _ Hl0), (internal_not_error _ Hint).
        destruct ev0; try (simpl; lia). simpl in Hev0. discriminate.
  - split; [discriminate|]. destruct Hc as [Hc _]. split.
    + intros l1 ev l2 e Heq Hev. exfalso. unfold calmInv in Hc.
      rewrite Heq in Hc. apply Forall_app in Hc as [_ Hc].
      inversion Hc as [|? ? [Hnone _] _]. congruence.
    + split; [|split; assumption]. rewrite (calm_count W _ Hc). lia.
Qed.

Lemma C9_witness :
  let p := getComments sampleWorld 5 outageParams emptyDisk in
  let st := finalState p in
  validateParams outageParams = None /\
  p = Fulfilled st /\
  exists sub,
    [ConsoleError sourceDown] = sub ++ [ConsoleError sourceDown] /\
    forallb isInternal sub = true.
Proof.
  split; [reflexivity|].
  refine (proj1 (proj2 (C9_errors_abort_run sampleWorld 5 outageParams
                          emptyDisk _))
            (removelast
               (removelast
                  (trace (finalState
                            (getComments sampleWorld 5 outageParams
                                         emptyDisk)))))
            (Request (lit "down") []) [ConsoleError sourceDown] sourceDown
            _ _); reflexivity.
Defined.

(** ** Fuel

    A run that has ended within some number of pages per video ends the
    same way with more. *)

Lemma pageLoop_S W c fuel videoId pageToken :
  pageLoop W (S fuel) c videoId pageToken =
  (emit (Request videoId pageToken) ;;
   response <- await (commentThreads_list W videoId pageToken) ;;
   scanItems W c (Api.items response) ;;
   total <- getTotal ;;
   if truthy (Api.nextPageToken response) && (total <? maxLimit c)%Z
   then pageLoop W fuel c videoId (default [] (Api.nextPageToken response))
   else ret tt).
Proof. reflexivity. Qed.

Lemma pageLoop_more_fuel W c fuel videoId pageToken st o :
  pageLoop W fuel c videoId pageToken st = o ->
  (forall st', o <> Diverged st') ->
  pageLoop W (S fuel) c videoId pageToken st = o.
Proof.
  revert pageToken st.
  induction fuel as [|fuel IH]; intros pageToken st Hrun Hended.
  - exfalso. apply (Hended st). by rewrite <- Hrun.
  - rewrite pageLoop_S in *. unfold_M.
    destruct (commentThreads_list W videoId pageToken) as [response|e];
      simpl in *; [|exact Hrun].
    destruct (scanItems W c (Api.items response) _) as [[] st'|e st'|st'];
      try exact Hrun.
    destruct (truthy _ && _); [|exact Hrun].
    by apply IH.
Qed.

Lemma videoLoop_more_fuel W c fuel videoIds st o :
  videoLoop W fuel c videoIds st = o ->
  (forall st', o <> Diverged st') ->
  videoLoop W (S fuel) c videoIds st = o.
Proof.
  revert st. induction videoIds as [|videoId rest IH]; intros st Hrun Hended;
    [exact Hrun|].
  cbn [videoLoop] in *. unfold_M.
  destruct (pageLoop W fuel c videoId [] _) as [[] st'|e st'|st'] eqn:Hpage.
  - rewrite (pageLoop_more_fuel _ _ _ _ _ _ _ Hpage) by discriminate.
    destruct (maxLimit c <=? _)%Z; [exact Hrun|]. by apply IH.
  - by rewrite (pageLoop_more_fuel _ _ _ _ _ _ _ Hpage).
  - exfalso. apply (Hended st'). by rewrite <- Hrun.
Qed.

Lemma getComments_more_fuel W fuel extra params d st :
  getComments W fuel params d = Fulfilled st ->
  getComments W (extra + fuel) params d = Fulfilled st.
Proof.
  intros Hrun. induction extra as [|extra IH]; [exact Hrun|].
  simpl. unfold getComments in *.
  destruct (validateParams params); [discriminate|].
  unfold tryCatch in *.
  destruct (videoLoop W (extra + fuel) (destructure params) _ _)
    as [[] st'|e st'|st'] eqn:Hloop; simpl in IH; try discriminate.
  - by rewrite (videoLoop_more_fuel _ _ _ _ _ _ Hloop).
  - by rewrite (videoLoop_more_fuel _ _ _ _ _ _ Hloop).
Qed.

(** ** Two runs of the sample world *)

(** Quota 1, search term cat, one page of three records of which the
    second and the third have the term: the first is scanned and skipped,
    the second accepted, the third never scanned; one request, one
    image. *)
Example quota_one_run :
  exists st,
    getComments sampleWorld 5 (sampleParams [lit "cat"] 1) emptyDisk
      = Fulfilled st /\
    totalCommentsFetched st = 1%Z /\
    count isRequest (trace st) = 1 /\ count isScan (trace st) = 2 /\
    count isRender (trace st) = 1 /\
    map_to_list (files (disk st))
      = [(lit "comment-images/bob.png", lit "BobMy CAT agrees")].
Proof. eexists. repeat split. Qed.

(** The run over [v1] and then [down]: three images from [v1], then the
    request for [down] fails, the error is reported, the images stay. *)
Example outage_run :
  exists st,
    getComments sampleWorld 5 outageParams emptyDisk = Fulfilled st /\
    totalCommentsFetched st = 3%Z /\
    last (trace st) = Some (ConsoleError sourceDown) /\
    size (files (disk st)) = 3.
Proof. eexists. repeat split. Qed.

(** * Further properties *)

(** ** The command line *)

Lemma split_string_cons sep s :
  exists part parts, split_string sep s = part :: parts.
Proof.
  induction s as [|u s (part & parts & IH)]; simpl; [eauto|].
  destruct (u =? sep)%N; [eauto|]. rewrite IH. eauto.
Qed.

Lemma join_cons sep part part' parts :
  join sep (part :: part' :: parts) = part ++ sep ++ join sep (part' :: parts).
Proof. reflexivity. Qed.

Lemma join_split sep s : join [sep] (split_string sep s) = s.
Proof.
  induction s as [|u s IH]; [reflexivity|]. simpl.
  destruct (N.eqb_spec u sep) as [->|Hne].
  - destruct (split_string_cons sep s) as (part & parts & Hs).
    rewrite Hs in *. rewrite join_cons, IH. reflexivity.
  - destruct (split_string sep s) as [|part [|part' parts]]; simpl in *;
      by rewrite <- IH.
Qed.

Lemma split_parts_free sep s :
  Forall (fun part => sep ∉ part) (split_string sep s).
Proof.
  induction s as [|u s IH]; simpl.
  - repeat constructor. apply not_elem_of_nil.
  - destruct (N.eqb_spec u sep) as [->|Hne].
    + constructor; [apply not_elem_of_nil | exact IH].
    + destruct (split_string sep s) as [|part parts].
      * repeat constructor. set_solver.
      * inversion IH; subst. constructor; [set_solver | assumption].
Qed.

Lemma split_join sep parts :
  parts <> [] -> Forall (fun part => sep ∉ part) parts ->
  split_string sep (join [sep] parts) = parts.
Proof.
  induction parts as [|part parts IH]; [done|]. intros _ Hfree.
  inversion Hfree as [|? ? Hpart Hparts]; subst.
  destruct parts as [|part' parts].
  - simpl. clear IH Hfree Hparts.
    induction part as [|u part IHp]; [reflexivity|]. simpl.
    destruct (N.eqb_spec u sep) as [->|_]; [set_solver|].
    rewrite IHp; [reflexivity | set_solver].
  - rewrite join_cons. specialize (IH ltac:(done) Hparts).
    clear Hfree Hparts. revert IH.
    generalize (join [sep] (part' :: parts)). generalize (part' :: parts).
    intros parts' rest IH.
    induction part as [|u part IHp]; simpl in *.
    + rewrite N.eqb_refl. by rewrite IH.
    + destruct (N.eqb_spec u sep) as [->|_]; [set_solver|].
      rewrite IHp; [reflexivity | set_solver].
Qed.

Lemma split_snoc_sep sep s :
  split_string sep (s ++ [sep]) = split_string sep s ++ [[]].
Proof.
  induction s as [|u s IH]; simpl.
  - by rewrite N.eqb_refl.
  - destruct (u =? sep)%N; [by rewrite IH|]. rewrite IH.
    by destruct (split_string_cons sep s) as (part & parts & ->).
Qed.

Lemma truthy_Some (s : jsstring) : truthy (Some s) = true <-> s <> [].
Proof. destruct s; simpl; split; (done || discriminate). Qed.

(** X1. A list option of the command line is cut at its commas and loses
    nothing: for a non-empty option the list is not empty, none of its
    entries has a comma, and joined by commas it is the option again;
    conversely a list of comma-free entries passed joined by commas comes
    back as it was. An option that is absent or empty gives the empty
    list. *)
Theorem splitOption_round_trip :
  (forall s,
      s <> [] ->
      splitOption (Some s) <> [] /\
      Forall (fun part => comma ∉ part) (splitOption (Some s)) /\
      join [comma] (splitOption (Some s)) = s)
  /\ (forall parts,
         Forall (fun part => comma ∉ part) parts ->
         join [comma] parts <> [] ->
         splitOption (Some (join [comma] parts)) = parts)
  /\ splitOption None = [] /\ splitOption (Some []) = [].
Proof.
  split; [|split; [|split; reflexivity]].
  - intros s Hs. unfold splitOption.
    rewrite (proj2 (truthy_Some s) Hs). simpl.
    split; [|split; [apply split_parts_free | apply join_split]].
    by destruct (split_string_cons comma s) as (part & parts & ->).
  - intros parts Hfree Hne. unfold splitOption.
    rewrite (proj2 (truthy_Some _) Hne). simpl.
    apply split_join; [|exact Hfree]. by intros ->.
Qed.

Lemma splitOption_round_trip_witness :
  splitOption (Some (lit "v1,down")) <> [] /\
  Forall (fun part => comma ∉ part) (splitOption (Some (lit "v1,down"))) /\
  join [comma] (splitOption (Some (lit "v1,down"))) = lit "v1,down".
Proof.
  apply (proj1 splitOption_round_trip (lit "v1,down")). discriminate.
Defined.

Lemma belowBound_false member bound :
  belowBound member bound = false <->
  forall n, member = Some n -> n = 0%Z \/ (bound <= n)%Z.
Proof.
  unfold belowBound. destruct member as [n|].
  - destruct (Z.eqb_spec n 0); simpl.
    + split; [intros _ ? [= <-]; by left | done].
    + destruct (Z.ltb_spec n bound).
      * split; [done|]. intros Hall. destruct (Hall n eq_refl); lia.
      * split; [intros _ ? [= <-]; by right | done].
  - split; [by intros _ ? ? | done].
Qed.

Lemma badTheme_false member :
  badTheme member = false <->
  forall t, member = Some t -> t = [] \/ t = lit "dark" \/ t = lit "light".
Proof.
  unfold badTheme. destruct member as [t|];
    [|split; [by intros _ ? ? | done]].
  split.
  - intros Hbad t' [= <-].
    destruct (decide (t = [])) as [Heq | H1]; [by left|].
    destruct (decide (t = lit "dark")) as [Heq | H2]; [right; by left|].
    destruct (decide (t = lit "light")) as [Heq | H3]; [right; by right|].
    exfalso. rewrite !bool_decide_eq_false_2 in Hbad by done. discriminate.
  - intros Hall. destruct (Hall t eq_refl) as [-> | [-> | ->]]; reflexivity.
Qed.

Lemma validateParams_None params :
  validateParams params = None <->
  (forall n, Params.maxLimit params = Some n -> n = 0%Z \/ (1 <= n)%Z) /\
  (forall n, Params.minLikes params = Some n -> (0 <= n)%Z) /\
  (forall n, Params.minReplies params = Some n -> (0 <= n)%Z) /\
  (forall n, Params.maxChars params = Some n -> n = 0%Z \/ (1 <= n)%Z) /\
  (forall t, Params.theme params = Some t ->
             t = [] \/ t = lit "dark" \/ t = lit "light").
Proof.
  rewrite <- !belowBound_false, <- badTheme_false.
  assert (Hlikes : forall member,
             belowBound member 0 = false <->
             forall n, member = Some n -> (0 <= n)%Z).
  { intros member. rewrite belowBound_false.
    split; intros H n Hn; specialize (H n Hn); lia. }
  rewrite <- !Hlikes. unfold validateParams.
  destruct (belowBound (Params.maxLimit params) 1),
    (belowBound (Params.minLikes params) 0),
    (belowBound (Params.minReplies params) 0),
    (belowBound (Params.maxChars params) 1),
    (badTheme (Params.theme params)); simpl; intuition discriminate.
Qed.

(** X2. [validateParams] lets parameters through exactly when each of
    [maxLimit] and [maxChars] is absent, 0 or at least 1, each of
    [minLikes] and [minReplies] is absent or at least 0, and [theme] is
    absent, empty, dark or light; when it throws, the promise of
    [getComments] is rejected with that error, an [Error], with nothing
    requested, logged or written. *)
Theorem validateParams_accepts params :
  (validateParams params = None <->
   (forall n, Params.maxLimit params = Some n -> n = 0%Z \/ (1 <= n)%Z) /\
   (forall n, Params.minLikes params = Some n -> (0 <= n)%Z) /\
   (forall n, Params.minReplies params = Some n -> (0 <= n)%Z) /\
   (forall n, Params.maxChars params = Some n -> n = 0%Z \/ (1 <= n)%Z) /\
   (forall t, Params.theme params = Some t ->
              t = [] \/ t = lit "dark" \/ t = lit "light"))
  /\ (forall W fuel d e,
         validateParams params = Some e ->
         getComments W fuel params d = Failed e (start d) /\
         errorName e = lit "Error").
Proof.
  split; [apply validateParams_None|].
  intros W fuel d e Hthrow. unfold getComments. rewrite Hthrow.
  split; [reflexivity|]. unfold validateParams in Hthrow.
  repeat match type of Hthrow with
         | (if ?b then _ else _) = _ => destruct b
         end; by inversion Hthrow.
Qed.

Lemma validateParams_accepts_witness :
  getComments sampleWorld 5 (sampleParams [lit "cat"] (-3)) emptyDisk
  = Failed (newError (lit "Invalid maxLimit. It should be a positive integer."))
           (start emptyDisk).
Proof.
  refine (proj1 (proj2 (validateParams_accepts
                          (sampleParams [lit "cat"] (-3)))
                       sampleWorld 5 emptyDisk _ _)).
  reflexivity.
Defined.

(** X3. Parameters built from the command line that pass validation have a
    quota of at least 1, thresholds of at least 0 and a character limit,
    if any, of at least 1: a [0] given for [maxLimit] is replaced by the
    default 10 and a [0] given for [maxChars] by no limit. *)
Theorem cliParams_bounds argv :
  validateParams (cliParams argv) = None ->
  let c := destructure (cliParams argv) in
  (1 <= maxLimit c)%Z /\ (0 <= minLikes c)%Z /\ (0 <= minReplies c)%Z /\
  (forall m, maxChars c = Some m -> (1 <= m)%Z) /\
  (Argv.maxLimit argv = Some 0%Z -> maxLimit c = 10%Z) /\
  (Argv.maxChars argv = Some 0%Z -> maxChars c = None).
Proof.
  intros Hvalid. apply validateParams_None in Hvalid
    as (Hlimit & Hlikes & Hreplies & Hchars & _).
  simpl in *. unfold orNumber, orInfinity in *.
  split; [|split; [|split; [|split; [|split]]]].
  - destruct (Argv.maxLimit argv) as [n|]; [|lia].
    destruct (Z.eqb_spec n 0); [lia|].
    destruct (Hlimit n eq_refl); lia.
  - apply Hlikes. reflexivity.
  - apply Hreplies. reflexivity.
  - intros m Hm. destruct (Argv.maxChars argv) as [n|]; [|done].
    destruct (Z.eqb_spec n 0); [done|]. injection Hm as ->.
    destruct (Hchars m eq_refl); lia.
  - intros ->. reflexivity.
  - intros ->. reflexivity.
Qed.

Lemma cliParams_bounds_witness :
  maxLimit (destructure (cliParams sampleArgv)) = 10%Z.
Proof.
  refine (proj1 (proj2 (proj2 (proj2 (proj2
            (cliParams_bounds sampleArgv _))))) _); reflexivity.
Defined.

(** X4. A comma at the end of the search terms given on the command line
    makes the empty string a search term, and then every record is
    matched, whatever its text. *)
Theorem cli_trailing_comma_matches_all argv s item :
  Argv.searchTerms argv = Some (s ++ [comma]) ->
  [] ∈ Params.searchTerms (cliParams argv) /\
  isMatched (destructure (cliParams argv)) item = true.
Proof.
  intros Hterms.
  assert (Hin : [] ∈ Params.searchTerms (cliParams argv)).
  { simpl. rewrite Hterms. unfold splitOption.
    rewrite (proj2 (truthy_Some (s ++ [comma]))) by by destruct s.
    simpl. rewrite split_snoc_sep. set_solver. }
  split; [exact Hin|]. unfold isMatched. apply matched_spec.
  exists []. split; [exact Hin|]. apply includes_spec, includes_empty.
Qed.

Lemma cli_trailing_comma_matches_all_witness :
  isMatched (destructure (cliParams sampleArgv)) (thread "Ann" "What a dog" 3 0)
  = true.
Proof.
  refine (proj2 (cli_trailing_comma_matches_all sampleArgv (lit "cat")
                   (thread "Ann" "What a dog" 3 0) _)).
  reflexivity.
Defined.

(** ** The filter, in full *)




(** ** What a run leaves in its trace and on the disk *)

Lemma requestsOf_app l1 l2 :
  requestsOf (l1 ++ l2) = requestsOf l1 ++ requestsOf l2.
Proof. apply omap_app. Qed.

Lemma fetchedOf_app l1 l2 : fetchedOf (l1 ++ l2) = fetchedOf l1 ++ fetchedOf l2.
Proof. apply omap_app. Qed.

Lemma scannedOf_app l1 l2 : scannedOf (l1 ++ l2) = scannedOf l1 ++ scannedOf l2.
Proof. apply omap_app. Qed.

Lemma local_observed l :
  forallb isLocal l = true ->
  requestsOf l = [] /\ fetchedOf l = [] /\ scannedOf l = [] /\
  count isConsoleError l = 0.
Proof.
  induction l as [|ev l IH]; [done|]. intros Hall. simpl in Hall.
  apply andb_true_iff in Hall as [Hev Hl].
  destruct (IH Hl) as (H1 & H2 & H3 & H4).
  destruct ev as [[]| | | | | |]; try discriminate;
    (split; [transitivity (requestsOf l); [reflexivity | exact H1]|];
     split; [transitivity (fetchedOf l); [reflexivity | exact H2]|];
     split; [transitivity (scannedOf l); [reflexivity | exact H3]|];
     exact H4).
Qed.

Lemma internal_local sub :
  forallb isInternal sub = true -> forallb isLocal sub = true.
Proof.
  induction sub as [|ev sub IH]; simpl; [done|].
  rewrite !andb_true_iff. intros [Hev Hsub]. split; [|auto].
  by destruct ev as [[]| | | | | |].
Qed.

Lemma replay_app d l1 l2 : replay d (l1 ++ l2) = replay (replay d l1) l2.
Proof. apply fold_left_app. Qed.

Lemma dirOk_app d l1 l2 :
  dirOk d (l1 ++ l2) <-> dirOk d l1 /\ dirOk (replay d l1) l2.
Proof.
  revert d. induction l1 as [|ev l1 IH]; intros d; simpl; [tauto|].
  rewrite IH. tauto.
Qed.

Lemma replay_unchanged d l :
  count isMkdir l = 0 -> count isScreenshot l = 0 -> replay d l = d /\ dirOk d l.
Proof.
  revert d. induction l as [|ev l IH]; intros d; simpl; [done|].
  destruct ev as [[]| | | | | |]; simpl; try discriminate;
    intros H1 H2; destruct (IH d H1 H2); auto.
Qed.

(** The renderer, by what it adds to the trace: the disk afterwards is the
    disk before with these events replayed, and every screenshot goes to
    the path of the user name. *)
Lemma generateCommentImage_delta W cd th st :
  exists sub,
    stateOf (generateCommentImage W cd th st)
    = {| totalCommentsFetched := totalCommentsFetched st;
         trace := trace st ++ Render cd th :: sub;
         disk := replay (disk st) sub |} /\
    dirOk (disk st) sub /\
    forallb isInternal sub = true /\
    Forall (fun ev => forall p i, ev = Screenshot p i ->
                                  p = filePath (username cd)) sub /\
    (forall st', generateCommentImage W cd th st <> Diverged st') /\
    count isScreenshot sub <= 1 /\
    (forall st', generateCommentImage W cd th st = Returned tt st' ->
                 exists i, count isScreenshot sub = 1 /\
                           Screenshot (filePath (username cd)) i ∈ sub).
Proof.
  run_render.
  destruct (parseISO W (datePosted cd)) as [[t|]|e1]; simpl.
  2: destruct (newDate W (datePosted cd)) as [t|]; simpl.
  4: destruct (parseISO_of_Date W _) as [[t|]|e1']; simpl.
  all: try (destruct (engine_boundingBox W _) as [box|e2]; simpl;
            [destruct (dirExists (disk st)) eqn:Hdir; simpl;
             (destruct (engine_screenshot W _ _) as [img | e3]; simpl;
              [destruct (engine_close W _) as [e4|]; simpl|])|]).
  all: eexists; split;
    [ unfold push, withDisk; simpl; rewrite <- ?app_assoc; simpl;
      apply (f_equal2 (Build_State _)); reflexivity |].
  all: split; [simpl; rewrite ?Hdir; tauto |].
  all: split; [reflexivity |].
  all: split; [repeat constructor; intros ? ? [=]; congruence |].
  all: split; [intros ? Heq; discriminate Heq |].
  all: split; [simpl; lia |].
  all: first [ intros ? Heq; discriminate Heq
             | intros ? _; eexists; split; [reflexivity |];
               repeat (apply elem_of_cons; first [left; reflexivity | right]) ].
Qed.

Lemma internal_not_saved_elem sub u t :
  forallb isInternal sub = true -> Console (Saved u t) ∉ sub.
Proof.
  intros Hint Hin. rewrite forallb_forall in Hint.
  apply list_elem_of_In in Hin. by specialize (Hint _ Hin).
Qed.

(** The body of the record loop, by what it adds to the trace. *)
Lemma processItem_delta W c item st :
  exists delta,
    trace (stateOf (processItem W c item st)) = trace st ++ Scan item :: delta /\
    disk (stateOf (processItem W c item st)) = replay (disk st) delta /\
    dirOk (disk st) delta /\
    forallb isLocal delta = true /\
    (totalCommentsFetched st
     <= totalCommentsFetched (stateOf (processItem W c item st)))%Z /\
    Forall (fun ev => forall p i, ev = Screenshot p i -> exists u, p = filePath u)
           delta /\
    (forall st', processItem W c item st <> Diverged st') /\
    savedBacked delta.
Proof.
  rewrite processItem_unfold.
  destruct (isMatched c item).
  2: { exists []. simpl. unfold savedBacked. simpl.
       repeat split; try (done || lia || constructor).
       intros ? ? Hin. by apply elem_of_nil in Hin. }
  destruct (0 <? length (reasonOf c item))%nat.
  { eexists [_]. simpl. rewrite <- app_assoc. unfold savedBacked. simpl.
    repeat split; try (done || lia).
    - repeat constructor. by intros ? ? [=].
    - intros ? ? Hin. apply list_elem_of_singleton in Hin. discriminate. }
  destruct (generateCommentImage_delta W (commentDataOf (Api.topLevelComment item))
              (theme c) (push st (Scan item)))
    as (sub & Hst & Hdir & Hint & Hpaths & Hnd & Hle & Hret).
  assert (Hpaths' : Forall (fun ev => forall p i, ev = Screenshot p i ->
                                        exists u, p = filePath u) sub).
  { eapply Forall_impl; [exact Hpaths|]. intros ev H p i Hev. eauto. }
  pose proof (internal_not_saved _ Hint) as Hns.
  pose proof (internal_not_render _ Hint) as Hnr.
  destruct (generateCommentImage W _ _ _) as [[] st1|e st1|st1];
    simpl in *; [| |exfalso; by eapply Hnd]; subst st1.
  - destruct (Hret _ eq_refl) as (img & Hone & Himg).
    eexists (Render _ _ :: sub ++ [_]). simpl. rewrite <- !app_assoc. simpl.
    split; [reflexivity|]. rewrite replay_app. simpl.
    split; [reflexivity|]. split.
    { split; [done|]. apply dirOk_app. by split. }
    split.
    { rewrite forallb_app. simpl. by rewrite (internal_local _ Hint). }
    split; [lia|]. split; [|split; [done|]].
    { constructor; [by intros ? ? [=]|]. apply Forall_app. split; [done|].
      repeat constructor. by intros ? ? [=]. }
    unfold savedBacked. simpl. rewrite !count_app. simpl.
    split; [|lia].
    intros u t Hin. exists img.
    apply elem_of_cons in Hin as [Heq|Hin]; [discriminate|].
    apply elem_of_app in Hin as [Hin|Hin].
    { by apply internal_not_saved_elem in Hin. }
    apply list_elem_of_singleton in Hin. injection Hin as -> ->.
    apply elem_of_cons. right. apply elem_of_app. by left.
  - exists (Render (commentDataOf (Api.topLevelComment item)) (theme c) :: sub).
    simpl. rewrite <- !app_assoc. simpl.
    repeat split; try (done || lia).
    + by apply internal_local.
    + constructor; [by intros ? ? [=] | done].
    + intros u t Hin. apply elem_of_cons in Hin as [Heq|Hin]; [discriminate|].
      by apply internal_not_saved_elem in Hin.
    + simpl. lia.
    + simpl. lia.
Qed.

(** A property of states kept by every step holds at the end of every run,
    whether it returns, throws, is cut short or never starts. *)
Lemma getComments_invariant W (I : State -> Prop) fuel params d :
  I (start d) ->
  (forall st ev, isLocal ev = false -> isScan ev = false ->
                 I st -> I (push st ev)) ->
  (forall st item,
      I st -> open (destructure params) st ->
      post_item I (fun _ => I) (processItem W (destructure params) item st)) ->
  I (finalState (getComments W fuel params d)).
Proof.
  intros Hstart Hpush Hitem.
  destruct (validateParams params) as [e|] eqn:Hvalid.
  { unfold getComments. by rewrite Hvalid. }
  pose proof (getComments_rule W I (fun _ => I) fuel params d Hvalid) as Hrun.
  cbv zeta in Hrun.
  assert (Hfetch : forall st v, I st -> admissible (destructure params) st ->
                                I (push st (Console (Fetching v))))
    by (intros; by apply Hpush).
  assert (Hreq : forall st v t, I st -> admissible (destructure params) st ->
                   match commentThreads_list W v t with
                   | Ok _ => I (push st (Request v t))
                   | Fails _ => I (push st (Request v t))
                   end)
    by (intros st v t ? _; destruct (commentThreads_list W v t);
        by apply Hpush).
  specialize (Hrun Hfetch Hreq Hitem Hstart).
  destruct (getComments W fuel params d) as [st|e st|st]; simpl.
  - destruct Hrun as [H | (e & st' & H & ->)]; [exact H | by apply Hpush].
  - contradiction.
  - exact (proj1 Hrun).
Qed.

Lemma post_item_stateOf (I : State -> Prop) (o : Outcome unit) :
  (forall st', o <> Diverged st') -> I (stateOf o) -> post_item I (fun _ => I) o.
Proof. destruct o as [[] st|e st|st]; simpl; [done|done|]. intros H. by destruct (H st). Qed.

(** *** The disk *)

Lemma accounted_push d0 st ev :
  isMkdir ev = false -> isScreenshot ev = false ->
  accounted d0 st -> accounted d0 (push st ev).
Proof.
  intros Hm Hs (Hdisk & Hdir & Hpaths). unfold accounted. simpl.
  rewrite replay_app, dirOk_app, <- Hdisk.
  split; [by destruct ev|]. split.
  - split; [done|]. by destruct ev.
  - apply Forall_app. split; [done|]. repeat constructor. by destruct ev.
Qed.

Lemma accounted_item_ok W c d0 st item :
  accounted d0 st ->
  post_item (accounted d0) (fun _ => accounted d0) (processItem W c item st).
Proof.
  intros (Hdisk & Hdir & Hpaths).
  destruct (processItem_delta W c item st)
    as (delta & Htr & Hd & Hok & _ & _ & Hp & Hnd & _).
  apply post_item_stateOf; [exact Hnd|]. unfold accounted.
  rewrite Htr, Hd, replay_app, dirOk_app, <- Hdisk. simpl.
  split; [reflexivity|]. split; [tauto|].
  apply Forall_app. split; [done|]. constructor; [by intros ? ? [=] | done].
Qed.

Lemma accounted_run W fuel params d :
  accounted d (finalState (getComments W fuel params d)).
Proof.
  apply getComments_invariant.
  - unfold accounted. simpl. repeat split. constructor.
  - intros st ev Hl Hs. apply accounted_push; by destruct ev as [[]| | | | | |].
  - intros st item Hst _. by apply accounted_item_ok.
Qed.

Lemma replay_frame d l p :
  (forall i, Screenshot p i ∉ l) ->
  files (replay d l) !! p = files d !! p.
Proof.
  revert d. induction l as [|ev l IH]; intros d Hno; [reflexivity|].
  simpl. rewrite IH by (intros i Hin; apply (Hno i); set_solver).
  destruct ev as [[]| | | | | |q img]; simpl; try reflexivity.
  apply lookup_insert_ne. intros <-. apply (Hno img). set_solver.
Qed.

Lemma replay_last_write d l1 p i l2 :
  (forall i', Screenshot p i' ∉ l2) ->
  files (replay d (l1 ++ Screenshot p i :: l2)) !! p = Some i.
Proof.
  intros Hno. rewrite replay_app. simpl. rewrite replay_frame by exact Hno.
  simpl. apply lookup_insert_eq.
Qed.

Lemma replay_dir_stays d l :
  dirExists d = true -> dirExists (replay d l) = true.
Proof.
  revert d. induction l as [|ev l IH]; intros d Hd; [exact Hd|].
  simpl. apply IH. by destruct ev as [[]| | | | | |].
Qed.

Lemma dirOk_mkdir_count d l :
  dirOk d l -> count isMkdir l <= (if dirExists d then 0 else 1).
Proof.
  revert d. induction l as [|ev l IH]; intros d; simpl; [lia|].
  intros [Hev Hl]. specialize (IH _ Hl).
  destruct ev as [[]| | | | | |]; simpl in *; try exact IH.
  rewrite Hev. lia.
Qed.

(** X6. The trace of a run of [getComments] accounts for the disk: the
    disk at the end is the disk found with the screenshots of the trace
    written in order. So a path without a screenshot in the trace holds
    what it held before, a path with one holds the image of the last, and
    every screenshot is at the path of some user name. *)
Theorem disk_is_replay_of_trace W fuel params d :
  let st := finalState (getComments W fuel params d) in
  disk st = replay d (trace st) /\
  (forall p, (forall i, Screenshot p i ∉ trace st) ->
             files (disk st) !! p = files d !! p) /\
  (forall l1 p i l2,
      trace st = l1 ++ Screenshot p i :: l2 ->
      (forall i', Screenshot p i' ∉ l2) ->
      files (disk st) !! p = Some i) /\
  (forall p i, Screenshot p i ∈ trace st -> exists u, p = filePath u).
Proof.
  cbv zeta. destruct (accounted_run W fuel params d) as (Hdisk & _ & Hpaths).
  split; [exact Hdisk|]. split; [|split].
  - intros p Hno. rewrite Hdisk. by apply replay_frame.
  - intros l1 p i l2 Htr Hno. rewrite Hdisk, Htr. by apply replay_last_write.
  - intros p i Hin. rewrite Forall_forall in Hpaths. eauto.
Qed.

Lemma disk_is_replay_of_trace_witness :
  files (disk (finalState (getComments sampleWorld 5
                             (sampleParams [lit "cat"] 1) emptyDisk)))
    !! lit "comment-images/ann.png" = None.
Proof.
  refine (proj1 (proj2 (disk_is_replay_of_trace sampleWorld 5
                          (sampleParams [lit "cat"] 1) emptyDisk))
            (lit "comment-images/ann.png") _).
  intros i Hin. apply list_elem_of_In in Hin. vm_compute in Hin.
  intuition discriminate.
Defined.

(** X7. In a run of [getComments] the directory [comment-images] is made
    at most once, only at a point where it does not exist, and never when
    it was there from the start; a screenshot is written only at a point
    where the directory exists. *)
Theorem directory_made_once W fuel params d :
  let st := finalState (getComments W fuel params d) in
  count isMkdir (trace st) <= 1 /\
  (dirExists d = true ->
   count isMkdir (trace st) = 0 /\ dirExists (disk st) = true) /\
  (forall l1 l2,
      trace st = l1 ++ Mkdir :: l2 -> dirExists (replay d l1) = false) /\
  (forall l1 p i l2,
      trace st = l1 ++ Screenshot p i :: l2 -> dirExists (replay d l1) = true).
Proof.
  cbv zeta. destruct (accounted_run W fuel params d) as (Hdisk & Hdir & _).
  pose proof (dirOk_mkdir_count _ _ Hdir) as Hcount.
  split; [destruct (dirExists d); lia|]. split; [|split].
  - intros Hd. rewrite Hd in Hcount. split; [lia|].
    rewrite Hdisk. by apply replay_dir_stays.
  - intros l1 l2 Htr. rewrite Htr in Hdir.
    apply dirOk_app in Hdir as [_ Hdir]. simpl in Hdir. tauto.
  - intros l1 p i l2 Htr. rewrite Htr in Hdir.
    apply dirOk_app in Hdir as [_ Hdir]. simpl in Hdir. tauto.
Qed.

Lemma directory_made_once_witness :
  count isMkdir
        (trace (finalState
                  (getComments sampleWorld 5 (sampleParams [lit "cat"] 5)
                     {| dirExists := true; files := ∅ |}))) = 0.
Proof.
  refine (proj1 (proj1 (proj2 (directory_made_once sampleWorld 5
                                 (sampleParams [lit "cat"] 5)
                                 {| dirExists := true; files := ∅ |})) _)).
  reflexivity.
Defined.

(** *** File names *)

Lemma fileNameUnit_safe u : isNameUnit (fileNameUnit u) = true.
Proof.
  unfold isNameUnit, fileNameUnit, isLowerAZ, isUpperAZ, isDigit.
  repeat match goal with
         | |- context [(?a <=? ?b)%N] => destruct (N.leb_spec a b)
         | |- context [(?a =? ?b)%N] => destruct (N.eqb_spec a b)
         end; simpl in *; try reflexivity; lia.
Qed.

Lemma fileNameUnit_fixed u : isNameUnit u = true -> fileNameUnit u = u.
Proof.
  unfold isNameUnit, fileNameUnit, isLowerAZ, isUpperAZ, isDigit.
  repeat match goal with
         | |- context [(?a <=? ?b)%N] => destruct (N.leb_spec a b)
         | |- context [(?a =? ?b)%N] => destruct (N.eqb_spec a b)
         end; simpl in *; try (reflexivity || discriminate || lia).
Qed.

Lemma isNameUnit_plain u :
  isNameUnit u = true -> u <> 0x2F%N /\ u <> 0x2E%N /\ u <> 0x5C%N.
Proof.
  unfold isNameUnit, isLowerAZ, isDigit.
  repeat match goal with
         | |- context [(?a <=? ?b)%N] => destruct (N.leb_spec a b)
         | |- context [(?a =? ?b)%N] => destruct (N.eqb_spec a b)
         end; simpl in *; try discriminate; intros _; lia.
Qed.

(** X8. The image of a user is written inside [comment-images]: its path
    is that directory, a name as long as the user name made only of
    lower-case ASCII letters, digits and underscores, so without slash,
    backslash or dot, and [.png]. User names that are such names already
    get different files; names collide only through characters that are
    replaced or lowered. *)
Theorem filePath_stays_in_directory :
  (forall u,
      exists name,
        filePath u = lit "comment-images/" ++ name ++ lit ".png" /\
        length name = length u /\
        Forall (fun x => isNameUnit x = true /\
                         x <> 0x2F%N /\ x <> 0x2E%N /\ x <> 0x5C%N) name)
  /\ (forall u1 u2,
         forallb isNameUnit u1 = true -> forallb isNameUnit u2 = true ->
         filePath u1 = filePath u2 -> u1 = u2).
Proof.
  split.
  - intros u. exists (fileNameUnit <$> u).
    split; [apply filePath_spec|]. split; [apply length_fmap|].
    apply Forall_fmap, Forall_true. intros x. simpl.
    split; [apply fileNameUnit_safe | apply isNameUnit_plain, fileNameUnit_safe].
  - assert (Hfixed : forall u, forallb isNameUnit u = true ->
                               fileNameUnit <$> u = u).
    { induction u as [|x u IH]; [done|]. intros Hxu. simpl in Hxu.
      apply andb_true_iff in Hxu as [Hx Hu].
      by rewrite fmap_cons, (fileNameUnit_fixed x Hx), (IH Hu). }
    intros u1 u2 H1 H2. rewrite !filePath_spec, (Hfixed _ H1), (Hfixed _ H2).
    intros Heq. apply app_inv_head in Heq. by apply app_inv_tail in Heq.
Qed.

Lemma filePath_stays_in_directory_witness :
  forallb isNameUnit (lit "bob_1") = true /\ lit "bob_1" = lit "bob_1".
Proof.
  split; [reflexivity|].
  refine (proj2 filePath_stays_in_directory (lit "bob_1") (lit "bob_1")
                _ _ _); reflexivity.
Defined.

(** *** Saved lines *)

Lemma savedBacked_app l1 l2 :
  savedBacked l1 -> savedBacked l2 -> savedBacked (l1 ++ l2).
Proof.
  intros (H1 & H1a & H1b) (H2 & H2a & H2b). unfold savedBacked.
  rewrite !count_app. split; [|lia].
  intros u t Hin. apply elem_of_app in Hin as [Hin|Hin].
  - destruct (H1 u t Hin) as [i Hi]. exists i. apply elem_of_app. by left.
  - destruct (H2 u t Hin) as [i Hi]. exists i. apply elem_of_app. by right.
Qed.

Lemma savedBacked_other ev :
  isSaved ev = false -> isScreenshot ev = false -> savedBacked [ev].
Proof.
  intros Hs Hc. unfold savedBacked. simpl. rewrite Hs, Hc.
  split; [|lia]. intros u t Hin. apply list_elem_of_singleton in Hin.
  subst ev. discriminate.
Qed.

Lemma savedBacked_run W fuel params d :
  savedBacked (trace (finalState (getComments W fuel params d))).
Proof.
  apply (getComments_invariant W (fun st => savedBacked (trace st))).
  - unfold savedBacked. simpl. split; [|lia].
    intros ? ? Hin. by apply elem_of_nil in Hin.
  - intros st ev Hl Hs Hst. simpl. apply savedBacked_app; [exact Hst|].
    apply savedBacked_other; by destruct ev as [[]| | | | | |].
  - intros st item Hst _.
    destruct (processItem_delta W (destructure params) item st)
      as (delta & Htr & _ & _ & _ & _ & _ & Hnd & Hsaved).
    apply (post_item_stateOf (fun st => savedBacked (trace st))); [exact Hnd|].
    rewrite Htr. apply savedBacked_app; [exact Hst|].
    change (Scan item :: delta) with ([Scan item] ++ delta).
    apply savedBacked_app; [by apply savedBacked_other | exact Hsaved].
Qed.

Lemma replay_dom d l p i :
  Screenshot p i ∈ l -> p ∈ dom (files (replay d l)).
Proof.
  revert d. induction l as [|ev l IH] using rev_ind; intros d Hin.
  - by apply elem_of_nil in Hin.
  - rewrite replay_app. simpl. apply elem_of_app in Hin as [Hin|Hin].
    + specialize (IH d Hin).
      destruct ev as [[]| | | | | |]; simpl; try exact IH.
      rewrite dom_insert. set_solver.
    + apply list_elem_of_singleton in Hin. subst ev. simpl.
      rewrite dom_insert. set_solver.
Qed.

(** X9. In a run of [getComments] every line "Saved image for comment by
    u" has its file: the path of [u] is a file on the disk at the end of
    the run. There are never more saved lines than screenshots, nor more
    screenshots than calls of the renderer. *)
Theorem saved_lines_have_files W fuel params d :
  let st := finalState (getComments W fuel params d) in
  (forall u t, Console (Saved u t) ∈ trace st ->
               filePath u ∈ dom (files (disk st))) /\
  count isSaved (trace st) <= count isScreenshot (trace st) /\
  count isScreenshot (trace st) <= count isRender (trace st).
Proof.
  cbv zeta. destruct (savedBacked_run W fuel params d) as (Hfiles & Hcounts).
  destruct (accounted_run W fuel params d) as (Hdisk & _).
  split; [|exact Hcounts].
  intros u t Hin. destruct (Hfiles u t Hin) as [i Hi].
  rewrite Hdisk. by apply replay_dom with i.
Qed.

Lemma saved_lines_have_files_witness :
  filePath (lit "Bob")
    ∈ dom (files (disk (finalState
                          (getComments sampleWorld 5
                             (sampleParams [lit "cat"] 1) emptyDisk)))).
Proof.
  refine (proj1 (saved_lines_have_files sampleWorld 5
                   (sampleParams [lit "cat"] 1) emptyDisk)
            (lit "Bob") (lit "My CAT agrees") _).
  apply list_elem_of_In. vm_compute. tauto.
Defined.

(** *** Verdicts *)





(** ** Pagination *)

Lemma pagesItems_app W l1 l2 :
  pagesItems W (l1 ++ l2) = pagesItems W l1 ++ pagesItems W l2.
Proof. unfold pagesItems. by rewrite fmap_app, concat_app. Qed.

Lemma pagesItems_one W request : pagesItems W [request] = pageItems W request.
Proof. unfold pagesItems. simpl. apply app_nil_r. Qed.


Lemma requestsOf_scan item l : requestsOf (Scan item :: l) = requestsOf l.
Proof. reflexivity. Qed.
Lemma fetchedOf_scan item l : fetchedOf (Scan item :: l) = fetchedOf l.
Proof. reflexivity. Qed.
Lemma scannedOf_scan item l : scannedOf (Scan item :: l) = item :: scannedOf l.
Proof. reflexivity. Qed.
Lemma requestsOf_request v t l :
  requestsOf (Request v t :: l) = (v, t) :: requestsOf l.
Proof. reflexivity. Qed.
Lemma fetchedOf_request v t l : fetchedOf (Request v t :: l) = fetchedOf l.
Proof. reflexivity. Qed.
Lemma scannedOf_request v t l : scannedOf (Request v t :: l) = scannedOf l.
Proof. reflexivity. Qed.
Lemma requestsOf_fetching v l :
  requestsOf (Console (Fetching v) :: l) = requestsOf l.
Proof. reflexivity. Qed.
Lemma fetchedOf_fetching v l :
  fetchedOf (Console (Fetching v) :: l) = v :: fetchedOf l.
Proof. reflexivity. Qed.
Lemma scannedOf_fetching v l :
  scannedOf (Console (Fetching v) :: l) = scannedOf l.
Proof. reflexivity. Qed.

(** The record loop: it scans the records from the first on, all of them
    when it returns below the quota. *)
Lemma scanItems_shape W c items st :
  exists delta,
    trace (stateOf (scanItems W c items st)) = trace st ++ delta /\
    (totalCommentsFetched st
     <= totalCommentsFetched (stateOf (scanItems W c items st)))%Z /\
    requestsOf delta = [] /\ fetchedOf delta = [] /\
    scannedOf delta `prefix_of` items /\
    (forall st', scanItems W c items st = Returned tt st' ->
                 (totalCommentsFetched st' < maxLimit c)%Z ->
                 scannedOf delta = items) /\
    (forall st', scanItems W c items st <> Diverged st').
Proof.
  revert st. induction items as [|item rest IH]; intros st.
  { exists []. simpl. rewrite app_nil_r. unfold ret.
    repeat split; try done; try lia. }
  cbn [scanItems]. unfold_M.
  destruct (Z.leb_spec (maxLimit c) (totalCommentsFetched st)) as [Hfull|Hopen].
  { exists []. simpl. rewrite app_nil_r.
    repeat split; try done; try lia.
    - apply prefix_nil.
    - intros st' [= <-] Hlow. lia. }
  destruct (processItem_delta W c item st)
    as (d1 & Htr & _ & _ & Hlocal & Hmono & _ & Hnd & _).
  destruct (local_observed _ Hlocal) as (Hr1 & Hf1 & Hs1 & _).
  destruct (processItem W c item st) as [[] st1|e st1|st1]; simpl in *;
    [| |exfalso; by eapply Hnd].
  - destruct (IH st1) as (d2 & Htr2 & Hmono2 & Hr2 & Hf2 & Hs2 & Hall2 & Hnd2).
    exists (Scan item :: d1 ++ d2).
    rewrite Htr2, Htr, <- app_assoc. simpl.
    rewrite requestsOf_scan, fetchedOf_scan, scannedOf_scan.
    rewrite requestsOf_app, fetchedOf_app, scannedOf_app.
    rewrite Hr1, Hf1, Hs1, Hr2, Hf2. simpl.
    repeat split; try done; try lia.
    + by apply prefix_cons.
    + intros st' Hret Hlow. by rewrite (Hall2 st' Hret Hlow).
  - exists (Scan item :: d1). rewrite Htr.
    rewrite requestsOf_scan, fetchedOf_scan, scannedOf_scan, Hr1, Hf1, Hs1.
    repeat split; try done. apply prefix_cons, prefix_nil.
Qed.

Lemma complete_cons W videoId request requests :
  complete W videoId requests -> complete W videoId (request :: requests).
Proof.
  intros (t & r & Hlast & Hok & Hend). exists t, r.
  split; [|done]. destruct requests; [discriminate|]. exact Hlast.
Qed.

(** The page loop of one video: its requests follow the page tokens, the
    records are scanned in the order of the pages, and the loop returns
    below the quota only from the last page. *)
Lemma pageLoop_shape W c fuel videoId pageToken st :
  exists delta,
    trace (stateOf (pageLoop W fuel c videoId pageToken st)) = trace st ++ delta /\
    (totalCommentsFetched st
     <= totalCommentsFetched (stateOf (pageLoop W fuel c videoId pageToken st)))%Z /\
    fetchedOf delta = [] /\
    chained W videoId pageToken (requestsOf delta) /\
    (0 < fuel -> requestsOf delta <> []) /\
    scannedOf delta `prefix_of` pagesItems W (requestsOf delta) /\
    (forall st', pageLoop W fuel c videoId pageToken st = Returned tt st' ->
                 (totalCommentsFetched st' < maxLimit c)%Z ->
                 scannedOf delta = pagesItems W (requestsOf delta) /\
                 complete W videoId (requestsOf delta)).
Proof.
  revert pageToken st. induction fuel as [|fuel IH]; intros pageToken st.
  { exists []. simpl. rewrite app_nil_r.
    repeat split; try done; try lia; try apply prefix_nil. }
  rewrite pageLoop_S. unfold_M.
  destruct (commentThreads_list W videoId pageToken) as [response|e] eqn:Hlist;
    simpl.
  2: { exists [Request videoId pageToken].
       unfold requestsOf, fetchedOf, scannedOf. simpl.
       rewrite pagesItems_one. unfold pageItems. simpl. rewrite Hlist.
       repeat split; try done; try lia; try apply prefix_nil. by left. }
  destruct (scanItems_shape W c (Api.items response)
              (push st (Request videoId pageToken)))
    as (d1 & Htr1 & Hmono1 & Hr1 & Hf1 & Hs1 & Hall1 & Hnd1).
  assert (Hpage : pagesItems W [(videoId, pageToken)] = Api.items response).
  { rewrite pagesItems_one. unfold pageItems. simpl. by rewrite Hlist. }
  destruct (scanItems W c (Api.items response) _) as [[] st1|e st1|st1];
    simpl in *; [| |exfalso; by eapply Hnd1].
  2: { exists (Request videoId pageToken :: d1).
       rewrite Htr1, <- app_assoc. simpl.
       rewrite requestsOf_request, fetchedOf_request, scannedOf_request.
       rewrite Hr1, Hf1, Hpage.
       split; [reflexivity|]. split; [lia|]. split; [reflexivity|].
       split; [by split; [|left]|]. split; [done|]. split; [exact Hs1|].
       intros st' Hret. discriminate Hret. }
  assert (Hstop :
    exists delta,
      trace st1 = trace st ++ delta /\
      (totalCommentsFetched st <= totalCommentsFetched st1)%Z /\
      fetchedOf delta = [] /\
      chained W videoId pageToken (requestsOf delta) /\
      (0 < S fuel -> requestsOf delta <> []) /\
      scannedOf delta `prefix_of` pagesItems W (requestsOf delta) /\
      ((totalCommentsFetched st1 < maxLimit c)%Z ->
       scannedOf delta = pagesItems W (requestsOf delta)) /\
      requestsOf delta = [(videoId, pageToken)]).
  { exists (Request videoId pageToken :: d1).
    rewrite Htr1, <- app_assoc. simpl.
    rewrite requestsOf_request, fetchedOf_request, scannedOf_request.
    rewrite Hr1, Hf1, Hpage.
    split; [reflexivity|]. split; [lia|]. split; [reflexivity|].
    split; [by split; [|left]|]. split; [done|]. split; [exact Hs1|].
    split; [|reflexivity]. intros Hlow. by apply (Hall1 st1). }
  destruct (truthy (Api.nextPageToken response)) eqn:Htruthy; simpl.
  2: { destruct Hstop as (delta & H1 & H2 & H3 & H4 & H5 & H6 & H7 & H8).
       exists delta. repeat (split; [assumption|]).
       intros st' [= <-] Hlow. split; [auto|]. rewrite H8.
       exists pageToken, response. by repeat split. }
  destruct (Z.ltb_spec (totalCommentsFetched st1) (maxLimit c)) as [Hlow1|Hfull].
  2: { destruct Hstop as (delta & H1 & H2 & H3 & H4 & H5 & H6 & H7 & H8).
       exists delta. repeat (split; [assumption|]).
       intros st' [= <-] Hlow. lia. }
  clear Hstop.
  destruct (IH (default [] (Api.nextPageToken response)) st1)
    as (d2 & Htr2 & Hmono2 & Hf2 & Hch2 & _ & Hs2 & Hall2).
  exists (Request videoId pageToken :: d1 ++ d2).
  rewrite Htr2, Htr1, <- !app_assoc. simpl.
  specialize (Hall1 st1 eq_refl Hlow1).
  assert (Hreqs : requestsOf (Request videoId pageToken :: d1 ++ d2)
                  = (videoId, pageToken) :: requestsOf d2).
  { change (Request videoId pageToken :: d1 ++ d2)
      with ([Request videoId pageToken] ++ d1 ++ d2).
    by rewrite !requestsOf_app, Hr1. }
  assert (Hscans : scannedOf (Request videoId pageToken :: d1 ++ d2)
                   = Api.items response ++ scannedOf d2).
  { change (Request videoId pageToken :: d1 ++ d2)
      with ([Request videoId pageToken] ++ d1 ++ d2).
    by rewrite !scannedOf_app, Hall1. }
  assert (Hpages : pagesItems W ((videoId, pageToken) :: requestsOf d2)
                   = Api.items response ++ pagesItems W (requestsOf d2)).
  { change ((videoId, pageToken) :: requestsOf d2)
      with ([(videoId, pageToken)] ++ requestsOf d2).
    by rewrite pagesItems_app, Hpage. }
  rewrite Hreqs, Hscans, Hpages.
  split; [reflexivity|]. split; [lia|]. split.
  { change (Request videoId pageToken :: d1 ++ d2)
      with ([Request videoId pageToken] ++ d1 ++ d2).
    by rewrite !fetchedOf_app, Hf1, Hf2. }
  split.
  { simpl. split; [reflexivity|]. right.
    rewrite Hlist, ?requestsOf_app, ?Hr1. by split. }
  split; [done|]. split; [by apply prefix_app|].
  intros st' Hret Hlow. destruct (Hall2 st' Hret Hlow) as [-> Hcomplete].
  split; [reflexivity|]. by apply complete_cons.
Qed.

(** The loop over the videos: the videos are taken in list order, the
    requests are those of the videos one after the other, and the loop
    returns below the quota only when every video went to its last
    page. *)
Lemma videoLoop_shape W c fuel videoIds st :
  exists delta chains,
    trace (stateOf (videoLoop W fuel c videoIds st)) = trace st ++ delta /\
    (totalCommentsFetched st
     <= totalCommentsFetched (stateOf (videoLoop W fuel c videoIds st)))%Z /\
    fetchedOf delta `prefix_of` videoIds /\
    requestsOf delta = concat chains /\
    Forall2 (fun videoId chain =>
               chained W videoId [] chain /\ (0 < fuel -> chain <> []))
            (fetchedOf delta) chains /\
    scannedOf delta `prefix_of` pagesItems W (requestsOf delta) /\
    (forall st', videoLoop W fuel c videoIds st = Returned tt st' ->
                 (totalCommentsFetched st' < maxLimit c)%Z ->
                 fetchedOf delta = videoIds /\
                 scannedOf delta = pagesItems W (requestsOf delta) /\
                 Forall2 (complete W) videoIds chains).
Proof.
  revert st. induction videoIds as [|videoId rest IH]; intros st.
  { exists [], []. simpl. rewrite app_nil_r.
    split; [reflexivity|]. split; [lia|]. split; [apply prefix_nil|].
    split; [reflexivity|]. split; [constructor|].
    split; [apply prefix_nil|]. intros st' _ _.
    split; [reflexivity|]. split; [reflexivity | constructor]. }
  cbn [videoLoop]. unfold_M.
  destruct (pageLoop_shape W c fuel videoId []
              (push st (Console (Fetching videoId))))
    as (d1 & Htr1 & Hmono1 & Hf1 & Hch1 & Hne1 & Hs1 & Hall1).
  assert (Hstop :
    exists delta chains,
      trace (stateOf (pageLoop W fuel c videoId []
                        (push st (Console (Fetching videoId)))))
        = trace st ++ delta /\
      fetchedOf delta `prefix_of` videoId :: rest /\
      requestsOf delta = concat chains /\
      Forall2 (fun videoId chain =>
                 chained W videoId [] chain /\ (0 < fuel -> chain <> []))
              (fetchedOf delta) chains /\
      scannedOf delta `prefix_of` pagesItems W (requestsOf delta)).
  { exists (Console (Fetching videoId) :: d1), [requestsOf d1].
    rewrite Htr1. simpl. rewrite <- app_assoc. simpl.
    rewrite requestsOf_fetching, fetchedOf_fetching, scannedOf_fetching, Hf1.
    rewrite app_nil_r.
    split; [reflexivity|]. split; [apply prefix_cons, prefix_nil|].
    split; [reflexivity|]. split; [by repeat constructor | exact Hs1]. }
  destruct (pageLoop W fuel c videoId [] _) as [[] st1|e st1|st1] eqn:Hpage;
    simpl in *.
  2,3: destruct Hstop as (delta & chains & H1 & H2 & H3 & H4 & H5);
       exists delta, chains; repeat (split; [assumption || lia|]);
       intros st' Hret; discriminate Hret.
  destruct (Z.leb_spec (maxLimit c) (totalCommentsFetched st1)) as [Hfull|Hlow1].
  { destruct Hstop as (delta & chains & H1 & H2 & H3 & H4 & H5).
    exists delta, chains. repeat (split; [assumption || lia|]).
    intros st' [= <-] Hlow. lia. }
  clear Hstop. destruct (Hall1 st1 eq_refl Hlow1) as [Hscan1 Hcomplete1].
  destruct (IH st1)
    as (d2 & chains2 & Htr2 & Hmono2 & Hf2 & Hr2 & Hch2 & Hs2 & Hall2).
  exists (Console (Fetching videoId) :: d1 ++ d2), (requestsOf d1 :: chains2).
  rewrite Htr2, Htr1. simpl. rewrite <- !app_assoc. simpl.
  rewrite requestsOf_fetching, fetchedOf_fetching, scannedOf_fetching.
  rewrite requestsOf_app, fetchedOf_app, scannedOf_app, Hf1, Hr2, Hscan1.
  rewrite pagesItems_app. simpl.
  split; [reflexivity|]. split; [lia|]. split; [by apply prefix_cons|].
  split; [reflexivity|]. split; [by constructor|].
  split; [rewrite <- Hr2; by apply prefix_app|].
  intros st' Hret Hlow. destruct (Hall2 st' Hret Hlow) as (-> & Hscan2 & Hc2).
  split; [reflexivity|]. split; [by rewrite <- Hr2, Hscan2 | by constructor].
Qed.

Lemma getComments_unfold W fuel params d :
  validateParams params = None ->
  getComments W fuel params d =
  match videoLoop W fuel (destructure params)
                  (videoIdArray (destructure params)) (start d) with
  | Returned _ st => Fulfilled st
  | Threw e st => Fulfilled (push st (ConsoleError e))
  | Diverged st => Pending st
  end.
Proof.
  intros Hvalid. unfold getComments. rewrite Hvalid. unfold tryCatch.
  by destruct (videoLoop W fuel _ _ _) as [[] st|e st|st].
Qed.

(** X11. In a run of [getComments] the videos are announced in the order
    of [videoIds], from the first on and none skipped; the page requests are
    those of the announced videos, one video after the other; for each
    video the first request has the empty page token and every further
    one the non-empty token with which the response before it ended; and
    a video that is announced has its first page requested. *)
Theorem pagination_follows_tokens W fuel params d :
  let st := finalState (getComments W fuel params d) in
  fetchedOf (trace st) `prefix_of` Params.videoIds params /\
  exists chains,
    requestsOf (trace st) = concat chains /\
    Forall2 (fun videoId chain =>
               chained W videoId [] chain /\ (0 < fuel -> chain <> []))
            (fetchedOf (trace st)) chains.
Proof.
  cbv zeta. destruct (validateParams params) as [e|] eqn:Hvalid.
  { unfold getComments. rewrite Hvalid. simpl.
    split; [apply prefix_nil|]. exists []. split; [reflexivity | constructor]. }
  rewrite (getComments_unfold W fuel params d Hvalid).
  destruct (videoLoop_shape W (destructure params) fuel
              (videoIdArray (destructure params)) (start d))
    as (delta & chains & Htr & _ & Hf & Hr & Hch & _).
  simpl in Htr.
  destruct (videoLoop W fuel _ _ _) as [[] st|e st|st]; simpl in *;
    rewrite Htr, ?requestsOf_app, ?fetchedOf_app, ?app_nil_r;
    (split; [exact Hf|]); exists chains; by split.
Qed.

Lemma pagination_follows_tokens_witness :
  let params := sampleParams [lit "cat"] 10 in
  let st := finalState (getComments sampleWorld 5 params emptyDisk) in
  fetchedOf (trace st) `prefix_of` Params.videoIds params /\
  exists chains,
    requestsOf (trace st) = concat chains /\
    Forall2 (fun videoId chain => chained sampleWorld videoId [] chain /\
                                  chain <> [])
            (fetchedOf (trace st)) chains.
Proof.
  intros params st.
  destruct (pagination_follows_tokens sampleWorld 5 params emptyDisk)
    as (Hprefix & chains & Hrequests & Hchains).
  split; [exact Hprefix|]. exists chains. split; [exact Hrequests|].
  eapply Forall2_impl; [exact Hchains|].
  intros videoId chain (Hchained & Hsome). split; [exact Hchained|].
  apply Hsome. lia.
Defined.

(** X12. In a run of [getComments] the records are scanned in the order
    in which the requested pages list them, none skipped: the scanned
    records are an initial part of the records of the requested pages.
    When the run is fulfilled without an error report and below the
    quota, nothing is left out: every video was announced, every video
    went to its last page, and every record of every page was scanned. *)
Theorem records_scanned_in_page_order W fuel params d :
  let c := destructure params in
  let p := getComments W fuel params d in
  let st := finalState p in
  scannedOf (trace st) `prefix_of` pagesItems W (requestsOf (trace st)) /\
  (p = Fulfilled st -> count isConsoleError (trace st) = 0 ->
   (totalCommentsFetched st < maxLimit c)%Z ->
   fetchedOf (trace st) = Params.videoIds params /\
   scannedOf (trace st) = pagesItems W (requestsOf (trace st)) /\
   exists chains,
     requestsOf (trace st) = concat chains /\
     Forall2 (complete W) (Params.videoIds params) chains).
Proof.
  cbv zeta. destruct (validateParams params) as [e|] eqn:Hvalid.
  { unfold getComments. rewrite Hvalid. simpl.
    split; [apply prefix_nil | discriminate]. }
  rewrite (getComments_unfold W fuel params d Hvalid).
  destruct (videoLoop_shape W (destructure params) fuel
              (videoIdArray (destructure params)) (start d))
    as (delta & chains & Htr & _ & _ & Hr & _ & Hs & Hall).
  simpl in Htr.
  destruct (videoLoop W fuel _ _ _) as [[] st|e st|st]; simpl in *;
    rewrite Htr, ?requestsOf_app, ?scannedOf_app, ?app_nil_r.
  - split; [exact Hs|]. intros _ _ Hlow.
    destruct (Hall st eq_refl Hlow) as (Hf & Hscan & Hc).
    split; [exact Hf|]. split; [exact Hscan|]. by exists chains.
  - split; [exact Hs|]. intros _ Hcount. exfalso.
    rewrite count_app in Hcount. simpl in Hcount. lia.
  - split; [exact Hs | discriminate].
Qed.

Lemma records_scanned_in_page_order_witness :
  let st := finalState (getComments sampleWorld 5 (sampleParams [lit "dog"] 5)
                                    emptyDisk) in
  fetchedOf (trace st) = [lit "v1"] /\
  scannedOf (trace st) = pagesItems sampleWorld (requestsOf (trace st)) /\
  exists chains,
    requestsOf (trace st) = concat chains /\
    Forall2 (complete sampleWorld) [lit "v1"] chains.
Proof.
  refine (proj2 (records_scanned_in_page_order sampleWorld 5
                   (sampleParams [lit "dog"] 5) emptyDisk) _ _ _);
    reflexivity.
Defined.

(** ** Custom comments, continued *)

Lemma customLoop_app W th l1 l2 st :
  customLoop W th (l1 ++ l2) st =
  match customLoop W th l1 st with
  | Returned _ st1 => customLoop W th l2 st1
  | Threw e st1 => Threw e st1
  | Diverged st1 => Diverged st1
  end.
Proof.
  revert st. induction l1 as [|cd l1 IH]; intros st; [reflexivity|].
  cbn [app customLoop]. unfold_M.
  destruct (generateCommentImage W cd th st) as [[] st1|e st1|st1];
    [apply IH | reflexivity | reflexivity].
Qed.

Lemma customLoop_requests W th comments st :
  requestsOf (trace (stateOf (customLoop W th comments st)))
  = requestsOf (trace st).
Proof.
  revert st. induction comments as [|cd rest IH]; intros st; [reflexivity|].
  cbn [customLoop]. unfold_M.
  destruct (generateCommentImage_delta W cd th st)
    as (sub & Hst & _ & Hint & _).
  destruct (local_observed _ (internal_local _ Hint)) as (Hr & _).
  assert (Hsame : requestsOf (trace (stateOf (generateCommentImage W cd th st)))
                  = requestsOf (trace st)).
  { rewrite Hst. simpl.
    change (Render cd th :: sub) with ([Render cd th] ++ sub).
    rewrite !requestsOf_app, Hr. by rewrite !app_nil_r. }
  destruct (generateCommentImage W cd th st) as [[] st1|e st1|st1];
    simpl in *; try exact Hsame.
  rewrite IH. simpl. rewrite requestsOf_app. by rewrite app_nil_r.
Qed.

Lemma customLoop_no_error_report W th comments st :
  count isConsoleError (trace (stateOf (customLoop W th comments st)))
  = count isConsoleError (trace st).
Proof.
  revert st. induction comments as [|c rest IH]; intros st; [reflexivity|].
  cbn [customLoop]. unfold_M.
  destruct (generateCommentImage_delta W c th st)
    as (sub & Hst & _ & Hint & _).
  destruct (generateCommentImage W c th st) as [[] s1|e s1|s1];
    simpl in *; subst s1; simpl;
    rewrite ?IH; simpl; rewrite ?count_app; simpl;
    rewrite ?count_app; simpl;
    rewrite (internal_not_error _ Hint); lia.
Qed.

(** X13. When a comment of the custom list fails to render, the promise
    of [generateCustomComments] is rejected with its error, which is
    neither caught nor logged: the renderer has been called for the
    comments up to and including the failing one, in order, and for none
    after it, and the files of the comments before it are on the disk. *)
Theorem custom_comments_stop_at_first_failure W pre cd post th d e :
  (forall c, c ∈ pre -> renderError W c th = None) ->
  renderError W cd th = Some e ->
  exists st,
    generateCustomComments W (pre ++ cd :: post) th d = Failed e st /\
    renderCalls (trace st) = (fun c => (c, th)) <$> (pre ++ [cd]) /\
    count isConsoleError (trace st) = 0 /\
    (forall c, c ∈ pre -> filePath (username c) ∈ dom (files (disk st))) /\
    dom (files d) ⊆ dom (files (disk st)).
Proof.
  intros Hpre Hcd. unfold generateCustomComments.
  rewrite customLoop_app.
  destruct (customLoop_outcome W th pre (start d) Hpre)
    as (st1 & Hrun & Hcalls & _ & Hdom).
  pose proof (customLoop_no_error_report W th pre (start d)) as Hnone.
  rewrite Hrun in *. simpl in Hnone.
  cbn [customLoop]. unfold_M.
  destruct (generateCommentImage_outcome W cd th st1)
    as (sub & d' & -> & Hint & Hg & _).
  rewrite Hcd. simpl. eexists. split; [reflexivity|]. simpl in *.
  split; [|split; [|split]].
  - rewrite renderCalls_app, Hcalls, fmap_app.
    change (renderCalls (Render cd th :: sub))
      with ((cd, th) :: renderCalls sub).
    by rewrite (internal_no_calls _ Hint).
  - rewrite count_app. simpl. rewrite (internal_not_error _ Hint). lia.
  - intros c Hc. apply Hg. rewrite Hdom. apply elem_of_union. right.
    apply elem_of_list_to_set, list_elem_of_fmap. by exists c.
  - etransitivity; [|apply Hg]. rewrite Hdom. set_solver.
Qed.

Lemma custom_comments_stop_at_first_failure_witness :
  exists st,
    generateCustomComments sampleWorld
      ([firstComment] ++ undatedComment :: [secondComment]) (lit "dark")
      emptyDisk = Failed invalidTime st /\
    renderCalls (trace st)
    = (fun c => (c, lit "dark")) <$> ([firstComment] ++ [undatedComment]) /\
    count isConsoleError (trace st) = 0 /\
    (forall c, c ∈ [firstComment] ->
               filePath (username c) ∈ dom (files (disk st))) /\
    dom (files emptyDisk) ⊆ dom (files (disk st)).
Proof.
  apply (custom_comments_stop_at_first_failure sampleWorld [firstComment]
           undatedComment [secondComment] (lit "dark") emptyDisk invalidTime).
  - intros c Hc. apply list_elem_of_singleton in Hc. subst c. reflexivity.
  - reflexivity.
Defined.

(** ** The date label, continued *)

(** X14. When [parseISO] itself throws, [generateCommentHTML] catches the
    error, logs it after the date, and parses the result of [new Date]
    instead: the error of [parseISO] never leaves the function. What
    leaves it is the label of the date so found, the [RangeError] of an
    Invalid Date, or the error of the second parse. *)
Theorem date_parse_error_is_recovered W cd th st e :
  parseISO W (datePosted cd) = Fails e ->
  let st1 := push (push st (Console (DatePosted (datePosted cd))))
                  (Console (ErrorParsingDate e)) in
  generateCommentHTML W cd th st =
  match parseISO_of_Date W (newDate W (datePosted cd)) with
  | Ok (Some t) => Returned (htmlOf cd th (formatDistance W t)) st1
  | Ok None => Threw invalidTime st1
  | Fails e' => Threw e' st1
  end.
Proof.
  intros Hparse. run_render. rewrite Hparse. simpl.
  by destruct (parseISO_of_Date W _) as [[t|]|e'].
Qed.

Lemma date_parse_error_is_recovered_witness :
  let W := {| commentThreads_list := commentThreads_list sampleWorld;
              parseISO := fun _ => Fails launchFailed;
              parseISO_of_Date := fun _ => Ok None;
              newDate := newDate sampleWorld;
              formatDistance := formatDistance sampleWorld;
              engine_boundingBox := engine_boundingBox sampleWorld;
              engine_screenshot := engine_screenshot sampleWorld;
              engine_close := engine_close sampleWorld |} in
  generateCommentHTML W firstComment (lit "dark") (start emptyDisk)
  = Threw invalidTime
          (push (push (start emptyDisk)
                      (Console (DatePosted (datePosted firstComment))))
                (Console (ErrorParsingDate launchFailed))).
Proof.
  intros W.
  apply (date_parse_error_is_recovered W firstComment (lit "dark")
           (start emptyDisk) launchFailed).
  reflexivity.
Defined.

(** ** Runs that end *)

Lemma scanItems_full W c items st :
  (maxLimit c <= totalCommentsFetched st)%Z ->
  scanItems W c items st = Returned tt st.
Proof.
  intros Hfull. destruct items as [|item rest]; [reflexivity|].
  cbn [scanItems]. unfold_M. by rewrite (proj2 (Z.leb_le _ _) Hfull).
Qed.

Lemma pageLoop_ends W c (depth : jsstring -> jsstring -> nat) fuel videoId :
  (forall t r,
      commentThreads_list W videoId t = Ok r ->
      truthy (Api.nextPageToken r) = true ->
      depth videoId (default [] (Api.nextPageToken r)) < depth videoId t) ->
  forall pageToken st st',
    depth videoId pageToken < fuel ->
    pageLoop W fuel c videoId pageToken st <> Diverged st'.
Proof.
  intros Hdepth. induction fuel as [|fuel IH]; intros pageToken st st' Hfuel;
    [lia|].
  rewrite pageLoop_S. unfold_M.
  destruct (commentThreads_list W videoId pageToken) as [response|e] eqn:Hlist;
    simpl; [|discriminate].
  destruct (scanItems_shape W c (Api.items response)
              (push st (Request videoId pageToken))) as (_ & _ & _ & _ & _ & _ & _ & Hnd).
  destruct (scanItems W c (Api.items response) _) as [[] st1|e st1|st1];
    [|discriminate|by destruct (Hnd st1)].
  destruct (truthy (Api.nextPageToken response)) eqn:Htruthy; simpl;
    [|discriminate].
  destruct (_ <? _)%Z; [|discriminate].
  apply IH. specialize (Hdepth _ _ Hlist Htruthy). lia.
Qed.

(** X15. [getComments] ends whenever the pages of each video end: if
    along the page tokens of every video some measure decreases, then
    with enough pages allowed the run is fulfilled, not left pending. *)
Theorem getComments_ends_when_pages_end
        W (depth : jsstring -> jsstring -> nat) fuel params d :
  validateParams params = None ->
  (forall videoId t r,
      commentThreads_list W videoId t = Ok r ->
      truthy (Api.nextPageToken r) = true ->
      depth videoId (default [] (Api.nextPageToken r)) < depth videoId t) ->
  (forall videoId, videoId ∈ Params.videoIds params -> depth videoId [] < fuel) ->
  exists st, getComments W fuel params d = Fulfilled st.
Proof.
  intros Hvalid Hdepth Hfuel. rewrite (getComments_unfold _ _ _ _ Hvalid).
  assert (Hends : forall videoIds st st',
             (forall videoId, videoId ∈ videoIds -> depth videoId [] < fuel) ->
             videoLoop W fuel (destructure params) videoIds st <> Diverged st').
  { clear Hfuel. induction videoIds as [|videoId rest IH]; intros st st' Hfuel;
      [discriminate|].
    cbn [videoLoop]. unfold_M.
    pose proof (pageLoop_ends W (destructure params) depth fuel videoId
                  (Hdepth videoId) [] (push st (Console (Fetching videoId))))
      as Hpage.
    destruct (pageLoop W fuel _ videoId [] _) as [[] st1|e st1|st1];
      [|discriminate|].
    - destruct (_ <=? _)%Z; [discriminate|]. apply IH.
      intros v Hv. apply Hfuel. set_solver.
    - exfalso. apply (Hpage st1); [|reflexivity]. apply Hfuel. set_solver. }
  specialize (Hends (videoIdArray (destructure params)) (start d)).
  destruct (videoLoop W fuel _ _ _) as [[] st|e st|st]; eauto.
  exfalso. by apply (Hends st Hfuel).
Qed.

Lemma getComments_ends_when_pages_end_witness :
  exists st,
    getComments sampleWorld 2 (sampleParams [lit "cat"] 10) emptyDisk
    = Fulfilled st.
Proof.
  apply (getComments_ends_when_pages_end sampleWorld
           (fun _ t => if bool_decide (t = []) then 1 else 0)).
  - reflexivity.
  - intros videoId t r Hlist Htruthy. simpl in Hlist.
    repeat case_bool_decide; simplify_eq; simpl in *;
      (discriminate || lia).
  - intros videoId _. simpl. lia.
Defined.

(** X16. A quota of 0, which validation lets through, does not keep the
    run from starting: the first video is announced and its first page
    requested, and then the run ends, fulfilled, with no record scanned
    and the disk untouched; only a rejection of that request adds its
    error report. *)
Theorem zero_quota_run W fuel params d videoId rest :
  validateParams params = None ->
  Params.maxLimit params = Some 0%Z ->
  Params.videoIds params = videoId :: rest ->
  getComments W (S fuel) params d =
  Fulfilled
    {| totalCommentsFetched := 0%Z;
       trace := [Console (Fetching videoId); Request videoId []]
                  ++ match commentThreads_list W videoId [] with
                     | Ok _ => []
                     | Fails e => [ConsoleError e]
                     end;
       disk := d |}.
Proof.
  intros Hvalid Hzero Hvideos. rewrite (getComments_unfold _ _ _ _ Hvalid).
  assert (Hmax : maxLimit (destructure params) = 0%Z)
    by (simpl; by rewrite Hzero).
  assert (Hvid : videoIdArray (destructure params) = videoId :: rest)
    by exact Hvideos.
  revert Hmax Hvid. generalize (destructure params). intros c Hmax Hvid.
  rewrite Hvid. cbn [videoLoop]. rewrite pageLoop_S. unfold_M.
  destruct (commentThreads_list W videoId []) as [response|e]; simpl;
    [|reflexivity].
  rewrite scanItems_full by (rewrite Hmax; simpl; lia).
  rewrite Hmax. simpl. rewrite andb_false_r. reflexivity.
Qed.

Lemma zero_quota_run_witness :
  getComments sampleWorld 5 (sampleParams [lit "cat"] 0) emptyDisk =
  Fulfilled {| totalCommentsFetched := 0%Z;
               trace := [Console (Fetching (lit "v1")); Request (lit "v1") []];
               disk := emptyDisk |}.
Proof.
  apply (zero_quota_run sampleWorld 4 (sampleParams [lit "cat"] 0) emptyDisk
                        (lit "v1") []); reflexivity.
Defined.

(** ** [main] *)

Lemma split_string_nonempty sep s : split_string sep s <> [].
Proof.
  destruct s as [|u s]; [discriminate|]. simpl.
  destruct (u =? sep)%N; [discriminate|].
  by destruct (split_string sep s).
Qed.

Lemma splitOption_nil given : splitOption given = [] <-> truthy given = false.
Proof.
  unfold splitOption. destruct (truthy given); split; try done.
  intros Hnil. by destruct (split_string_nonempty _ _ Hnil).
Qed.

Lemma customLoop_returns_or_throws W th comments st st' :
  customLoop W th comments st <> Diverged st'.
Proof.
  revert st. induction comments as [|cd rest IH]; intros st; [discriminate|].
  cbn [customLoop]. unfold_M.
  destruct (generateCommentImage_delta W cd th st)
    as (_ & _ & _ & _ & _ & Hnd & _).
  destruct (generateCommentImage W cd th st) as [[] st1|e st1|st1];
    [apply IH | discriminate | by destruct (Hnd st1)].
Qed.

Lemma finalState_settle o : finalState (settle o) = stateOf o.
Proof. by destruct o. Qed.

(** X17. From the command line alone, [main] starts the pipeline exactly
    when both [--videoIds] and [--searchTerms] are given and not empty:
    otherwise the process exits with status 1 and the disk as it was. A
    value of commas only is enough to start it. *)
Theorem cli_run_needs_both_lists W J fuel argv d :
  truthy (Argv.custom argv) = false ->
  truthy (Argv.config argv) = false ->
  (truthy (Argv.videoIds argv) && truthy (Argv.searchTerms argv) = false ->
   main W J fuel argv d = Exit1 MissingRequired d) /\
  (truthy (Argv.videoIds argv) && truthy (Argv.searchTerms argv) = true ->
   main W J fuel argv d = Went (getComments W fuel (cliParams argv) d)).
Proof.
  intros Hcustom Hconfig. unfold main. rewrite Hcustom, Hconfig.
  unfold missingRequired. simpl.
  split; intros Hgiven.
  - apply andb_false_iff in Hgiven.
    assert (Hnil : splitOption (Argv.videoIds argv) = [] \/
                   splitOption (Argv.searchTerms argv) = [])
      by (destruct Hgiven; [left | right]; by apply splitOption_nil).
    destruct Hnil as [Hnil | Hnil]; rewrite Hnil; simpl;
      rewrite ?orb_true_r; reflexivity.
  - apply andb_true_iff in Hgiven as [Hv Hs].
    rewrite !bool_decide_eq_false_2; [reflexivity | |];
      intros Hnil%splitOption_nil; congruence.
Qed.

Lemma cli_run_needs_both_lists_witness :
  main sampleWorld sampleJson 5 sampleArgv emptyDisk
  = Went (getComments sampleWorld 5 (cliParams sampleArgv) emptyDisk).
Proof.
  refine (proj2 (cli_run_needs_both_lists sampleWorld sampleJson 5 sampleArgv
                   emptyDisk _ _) _); reflexivity.
Defined.

(** X18. With [--custom], [main] never contacts the comment source:
    either the file is absent and the process exits with the disk as it
    was, or its parse fails, or the comments of the file are rendered
    with the theme of the command line, a run that makes no request and
    is not left pending. *)
Theorem custom_mode_makes_no_request W J fuel argv d :
  truthy (Argv.custom argv) = true ->
  match main W J fuel argv d with
  | Went p =>
      (exists text comments,
          files d !! default [] (Argv.custom argv) = Some text /\
          parseComments J text = Ok comments /\
          p = generateCustomComments W comments (orDark (Argv.theme argv)) d)
      /\ requestsOf (trace (finalState p)) = []
      /\ (forall st, p <> Pending st)
  | Exit1 why d' =>
      why = NoCustomFile /\ d' = d /\
      files d !! default [] (Argv.custom argv) = None
  | Uncaught e =>
      exists text,
        files d !! default [] (Argv.custom argv) = Some text /\
        parseComments J text = Fails e
  end.
Proof.
  intros Hcustom. unfold main, loadCustomComments. rewrite Hcustom.
  destruct (files d !! default [] (Argv.custom argv)) as [text|] eqn:Hfile;
    [|done].
  destruct (parseComments J text) as [comments|e] eqn:Hparse; [|by exists text].
  split; [by exists text, comments|]. split.
  - unfold generateCustomComments. rewrite finalState_settle.
    by rewrite customLoop_requests.
  - intros st. unfold generateCustomComments.
    pose proof (customLoop_returns_or_throws W (orDark (Argv.theme argv))
                  comments (start d)) as Hnd.
    destruct (customLoop W _ comments (start d)) as [[] s|e s|s];
      [discriminate | discriminate | by destruct (Hnd s)].
Qed.

Lemma custom_mode_makes_no_request_witness :
  let argv := {| Argv.config := Some (lit "config.json");
                 Argv.videoIds := Some (lit "v1");
                 Argv.searchTerms := Some (lit "cat");
                 Argv.maxLimit := None; Argv.minLikes := None;
                 Argv.minReplies := None; Argv.filteredWords := None;
                 Argv.maxChars := None; Argv.theme := Some (lit "light");
                 Argv.custom := Some (lit "custom.json") |} in
  match main sampleWorld sampleJson 5 argv emptyDisk with
  | Exit1 why d' => why = NoCustomFile /\ d' = emptyDisk
  | _ => False
  end.
Proof.
  intros argv.
  pose proof (custom_mode_makes_no_request sampleWorld sampleJson 5 argv
                emptyDisk eq_refl) as Hmain.
  destruct (main sampleWorld sampleJson 5 argv emptyDisk) eqn:Hrun;
    [discriminate Hrun | | discriminate Hrun].
  destruct Hmain as (Hwhy & Hd & _). by split.
Defined.

(** X19. A config file that is absent is created with the template, the
    rest of the disk untouched, and the process exits; run again, the
    template is read back and the process exits again, for want of video
    ids and search terms, the disk untouched: neither run reaches the
    pipeline. *)
Theorem template_config_cannot_run W J fuel argv d :
  truthy (Argv.custom argv) = false ->
  truthy (Argv.config argv) = true ->
  files d !! default [] (Argv.config argv) = None ->
  parseParams J (templateText J) = Ok templateParams ->
  exists d1,
    main W J fuel argv d = Exit1 NoConfigFile d1 /\
    dirExists d1 = dirExists d /\
    files d1 !! default [] (Argv.config argv) = Some (templateText J) /\
    (forall p, p <> default [] (Argv.config argv) ->
               files d1 !! p = files d !! p) /\
    main W J fuel argv d1 = Exit1 MissingRequired d1.
Proof.
  intros Hcustom Hconfig Habsent Hround. unfold main, loadConfig.
  rewrite Hcustom, Hconfig, Habsent. eexists. split; [reflexivity|]. simpl.
  split; [reflexivity|]. split; [apply lookup_insert_eq|].
  split; [intros p Hp; by apply lookup_insert_ne|].
  by rewrite lookup_insert_eq, Hround.
Qed.

Lemma template_config_cannot_run_witness :
  let argv := {| Argv.config := Some (lit "config.json");
                 Argv.videoIds := Some (lit "v1");
                 Argv.searchTerms := Some (lit "cat");
                 Argv.maxLimit := None; Argv.minLikes := None;
                 Argv.minReplies := None; Argv.filteredWords := None;
                 Argv.maxChars := None; Argv.theme := None;
                 Argv.custom := None |} in
  exists d1,
    main sampleWorld sampleJson 5 argv emptyDisk = Exit1 NoConfigFile d1 /\
    main sampleWorld sampleJson 5 argv d1 = Exit1 MissingRequired d1.
Proof.
  intros argv.
  destruct (template_config_cannot_run sampleWorld sampleJson 5 argv emptyDisk)
    as (d1 & Hfirst & _ & _ & _ & Hsecond); try reflexivity.
  exists d1. by split.
Defined.
